(** * News API: slug normalisation and slug uniqueness on creation

    A shallow embedding of [src/main.py]: the [slugify] function, the
    create and seed handlers that use it and the read and list handlers,
    followed by the properties of the slug scheme and of the handlers.

    Python strings are sequences of Unicode code points, so a text is a
    [list N] here; dictionaries are finite maps from field names to
    values. *)

From Stdlib Require Import NArith String Ascii List Lia.
From stdpp Require Import gmap strings list sorting.

Local Open Scope N_scope.

(** ** Text *)

Abbreviation str := (list N).

(** A string literal of the source as code points (the literals used below
    are ASCII). *)
Definition lit (s : string) : str :=
  map N_of_ascii (list_ascii_of_string s).

Definition hyphen : N := 45.

Definition in_range (lo hi c : N) : bool := (lo <=? c) && (c <=? hi).

(** [A-Z], [a-z] and [0-9]. *)
Definition is_ascii_upper (c : N) : bool := in_range 65 90 c.
Definition is_az (c : N) : bool := in_range 97 122 c.
Definition is_09 (c : N) : bool := in_range 48 57 c.

(** Whitespace as [str.strip()] and the regular expression class [\s] see
    it on a [str]: the code points for which [str.isspace] holds. *)
Definition isspace (c : N) : bool :=
  in_range 9 13 c || in_range 28 32 c
  || (c =? 133) || (c =? 160) || (c =? 5760)
  || in_range 8192 8202 c
  || (c =? 8232) || (c =? 8233) || (c =? 8239) || (c =? 8287)
  || (c =? 12288).

Definition is_hyphen (c : N) : bool := c =? hyphen.

(** The class [[a-z0-9\s-]] and the class [[\s-]]. *)
Definition kept (c : N) : bool := is_az c || is_09 c || isspace c || is_hyphen c.
Definition is_sep (c : N) : bool := isspace c || is_hyphen c.

(** [s.strip(chars)]: drop the leading and the trailing characters of the
    given class. *)
Fixpoint lstrip (p : N → bool) (s : str) : str :=
  match s with
  | [] => []
  | c :: r => if p c then lstrip p r else s
  end.

Definition rstrip (p : N → bool) (s : str) : str :=
  reverse (lstrip p (reverse s)).

Definition strip (p : N → bool) (s : str) : str := rstrip p (lstrip p s).

(** [re.sub("[cls]", repl, s)]: every character of the class is replaced. *)
Definition re_sub_char (cls : N → bool) (repl : str) (s : str) : str :=
  flat_map (λ c, if cls c then repl else [c]) s.

(** [re.sub("[cls]+", repl, s)]: every maximal run of characters of the
    class is replaced once; [in_run] tells that the character before was
    part of the run being replaced. *)
Fixpoint re_sub_plus_from (cls : N → bool) (repl : str) (in_run : bool) (s : str) : str :=
  match s with
  | [] => []
  | c :: r =>
      if cls c
      then (if in_run then [] else repl) ++ re_sub_plus_from cls repl true r
      else c :: re_sub_plus_from cls repl false r
  end.

Definition re_sub_plus (cls : N → bool) (repl : str) (s : str) : str :=
  re_sub_plus_from cls repl false s.

Section Slugify.

(** [str.lower()] maps ASCII letters itself; for the other code points it
    follows the Unicode case tables of the interpreter, which may look at
    the characters around (the final sigma) and may give several code
    points.  The tables are a parameter: [unicode_lower before c after]
    is the lowercase of [c] standing between [rev before] and [after]. *)
Variable unicode_lower : str → N → str → str.

Definition lower_char (before : str) (c : N) (after : str) : str :=
  if c <? 128
  then [if is_ascii_upper c then c + 32 else c]
  else unicode_lower before c after.

Fixpoint lower_from (before : str) (s : str) : str :=
  match s with
  | [] => []
  | c :: r => lower_char before c r ++ lower_from (c :: before) r
  end.

Definition lower (s : str) : str := lower_from [] s.

(** [slugify], main.py lines 25-29. *)
Definition slugify (text : str) : str :=
  let text := strip isspace (lower text) in
  let text := re_sub_char (λ c, negb (kept c)) [] text in
  let text := re_sub_plus is_sep [hyphen] text in
  strip is_hyphen text.

End Slugify.

(** ** Values and documents *)

(** The values a document of this API holds. *)
Inductive value :=
| VNone
| VBool (b : bool)
| VStr (s : str)
| VStrList (l : list str)
| VDatetime (t : N)
| VObjectId (n : N).

#[global] Instance value_eq_dec : EqDecision value.
Proof. solve_decision. Defined.

(** Python's truth value of a value. *)
Definition truthy (v : value) : bool :=
  match v with
  | VNone => false
  | VBool b => b
  | VStr s => negb (bool_decide (s = []))
  | VStrList l => negb (bool_decide (l = []))
  | VDatetime _ => true
  | VObjectId _ => true
  end.

Abbreviation doc := (gmap string value).

(** [d.get(k)]. *)
Definition dict_get (d : doc) (k : string) : value :=
  match d !! k with
  | Some v => v
  | None => VNone
  end.

(** The truth value of what [find_one] returned: [None] and the empty
    dictionary are false. *)
Definition found (o : option doc) : bool :=
  match o with
  | Some d => negb (bool_decide (d = ∅))
  | None => false
  end.

Definition of_optional {A} (f : A → value) (o : option A) : value :=
  match o with
  | Some a => f a
  | None => VNone
  end.

(** The request bodies, schemas.py. *)
Module Category.
Record t := {
  name : str;
  slug : option str;
  description : option str;
  is_active : bool
}.

Definition model_dump (p : t) : doc :=
  <["name" := VStr (name p)]>
    (<["slug" := of_optional VStr (slug p)]>
       (<["description" := of_optional VStr (description p)]>
          (<["is_active" := VBool (is_active p)]> ∅))).
End Category.

Module Article.
Record t := {
  title : str;
  slug : option str;
  summary : option str;
  content : str;
  author : str;
  category : option str;
  image_url : option str;
  tags : option (list str);
  published_at : option N;
  is_published : bool
}.

Definition model_dump (p : t) : doc :=
  <["title" := VStr (title p)]>
    (<["slug" := of_optional VStr (slug p)]>
       (<["summary" := of_optional VStr (summary p)]>
          (<["content" := VStr (content p)]>
             (<["author" := VStr (author p)]>
                (<["category" := of_optional VStr (category p)]>
                   (<["image_url" := of_optional VStr (image_url p)]>
                      (<["tags" := of_optional VStrList (tags p)]>
                         (<["published_at" := of_optional VDatetime (published_at p)]>
                            (<["is_published" := VBool (is_published p)]> ∅))))))))).
End Article.

(** ** The document store *)

(** A database: the documents of each collection, in insertion order. *)
Abbreviation Database := (gmap string (list doc)).

(** [db[name]]. *)
Definition collection (d : Database) (name : string) : list doc :=
  default [] (d !! name).

(** Modelled from the spec: the store keys its records by "an opaque unique
    identifier per record".  [fresh_oid c] is an identifier no document of
    [c] has: one more than the largest object identifier in [c]. *)
Definition oid_of (d : doc) : N :=
  match d !! "_id" with
  | Some (VObjectId n) => N.succ n
  | _ => 0
  end.

Definition fresh_oid (c : list doc) : N := foldr (λ d m, N.max (oid_of d) m) 0 c.

(** [str(oid)]: twenty-four hexadecimal digits. *)
Definition hex_digit (n : N) : N := if n <? 10 then 48 + n else 87 + n.

Fixpoint hex_from (k : nat) (n : N) (acc : str) : str :=
  match k with
  | O => acc
  | S k => hex_from k (n / 16) (hex_digit (n mod 16) :: acc)
  end.

Definition oid_str (n : N) : str := hex_from 24 n [].

(** ** Handlers: state and exceptions *)

Inductive exn :=
| HTTPException (status_code : N) (detail : string)
| Exception (what : string).

Inductive outcome (A : Type) :=
| Return (a : A)
| Raise (e : exn).
Arguments Return {A} a.
Arguments Raise {A} e.

(** A handler runs on the module-level handle [db]: [None], or the
    connected database. *)
Definition M (A : Type) : Type := option Database → outcome A * option Database.

Definition ret {A} (a : A) : M A := λ db, (Return a, db).
Definition raise {A} (e : exn) : M A := λ db, (Raise e, db).
Definition bind {A B} (m : M A) (k : A → M B) : M B :=
  λ db, match m db with
        | (Return a, db') => k a db'
        | (Raise e, db') => (Raise e, db')
        end.

Notation "x <- m ;; k" := (bind m (λ x, k))
  (at level 100, m at next level, right associativity, only parsing).

(** The truth value of the handle, [if db] (lines 84, 99, 127, 140, 153
    and 167).  The handle is [None] or the [Database] object of pymongo
    ([main.py] takes [ObjectId] from [bson] and uses [db.name],
    [db.list_collection_names()], [db[...]] and [find_one]), and pymongo
    gives a [Database] no truth value: [bool(db)] raises
    [NotImplementedError] and asks for a comparison with [None], the one
    lines 54 and 179 make.  [None] is false. *)
Definition db_bool : M bool :=
  λ db, match db with
        | Some _ => (Raise (Exception "NotImplementedError"), db)
        | None => (Return false, db)
        end.

(** [d[k]] for a text field: a missing key or a value that is no string
    raises. *)
Definition getitem_str (d : doc) (k : string) : M str :=
  match d !! k with
  | Some (VStr s) => ret s
  | Some _ => raise (Exception "AttributeError")
  | None => raise (Exception "KeyError")
  end.

Definition getitem (d : doc) (k : string) : M value :=
  match d !! k with
  | Some v => ret v
  | None => raise (Exception "KeyError")
  end.

(** Modelled from the spec: the storage collaborator (the [database] module
    that [main.py] imports is not among the sources).  The spec gives it as
    "a document collection keyed by an opaque unique identifier per record,
    queryable by exact-match field lookup (slug == X) and supporting
    insert-returning-identifier".  [find_one name field v] is
    [db[name].find_one({field: v})]: the first document of the collection
    whose field equals [v]; on a handle that is [None] the subscript
    raises. *)
Definition find_one (name field : string) (v : value) : M (option doc) :=
  λ db, match db with
        | Some d =>
            (Return (List.find (λ x, bool_decide (x !! field = Some v)) (collection d name)), db)
        | None => (Raise (Exception "TypeError"), db)
        end.

(** Modelled from the spec: [create_document name data] of the absent
    [database] module, "insert-returning-identifier": the document is stored
    in the collection under an identifier no other record of it has, and
    the identifier is returned.  The identifier is returned as it is: the
    source turns it into a string and back, [ObjectId(new_id)].  Without a
    database there is nothing to insert into and the call raises. *)
Definition create_document (name : string) (data : doc) : M N :=
  λ db, match db with
        | Some d =>
            let c := collection d name in
            let n := fresh_oid c in
            (Return n, Some (<[name := c ++ [<["_id" := VObjectId n]> data]]> d))
        | None => (Raise (Exception "Database not available"), db)
        end.

Section Handlers.

Variable unicode_lower : str → N → str → str.

(** [create_category], main.py lines 93-105.  [category_data] is [data]
    after lines 95-97; [data["name"]] is the name of the payload. *)
Definition category_data (payload : Category.t) : doc :=
  let data := Category.model_dump payload in
  if negb (truthy (dict_get data "slug"))
  then <["slug" := VStr (slugify unicode_lower (Category.name payload))]> data
  else data.

Definition create_category (payload : Category.t) : M doc :=
  let data := category_data payload in
  truth <- db_bool ;;
  existing <- (if truth
               then (slug <- getitem data "slug" ;; find_one "category" "slug" slug)
               else ret None) ;;
  if found existing
  then raise (HTTPException 400 "Category with this slug already exists")
  else
    new_id <- create_document "category" data ;;
    created <- find_one "category" "_id" (VObjectId new_id) ;;
    match created with
    | Some created => ret (<["_id" := VStr (oid_str new_id)]> created)
    | None => raise (Exception "TypeError")
    end.

(** [create_article], main.py lines 160-173.  [article_data] is [data]
    after lines 162-166; [now] is what [datetime.utcnow()] reads during
    the request. *)
Definition article_data (now : N) (payload : Article.t) : doc :=
  let data := Article.model_dump payload in
  let data :=
    if negb (truthy (dict_get data "slug"))
    then <["slug" := VStr (take 120 (slugify unicode_lower (Article.title payload)))]> data
    else data in
  if negb (truthy (dict_get data "published_at"))
  then <["published_at" := VDatetime now]> data
  else data.

Definition create_article (now : N) (payload : Article.t) : M doc :=
  let data := article_data now payload in
  truth <- db_bool ;;
  existing <- (if truth
               then (slug <- getitem data "slug" ;; find_one "article" "slug" slug)
               else ret None) ;;
  if found existing
  then raise (HTTPException 400 "Article with this slug already exists")
  else
    new_id <- create_document "article" data ;;
    created <- find_one "article" "_id" (VObjectId new_id) ;;
    match created with
    | Some created => ret (<["_id" := VStr (oid_str new_id)]> created)
    | None => raise (Exception "TypeError")
    end.

(** The fixtures of [seed_sample], main.py lines 182-188 and 194-222. *)
Definition seed_category (name slug : string) : doc :=
  <["name" := VStr (lit name)]> (<["slug" := VStr (lit slug)]> ∅).

Definition categories : list doc :=
  [ seed_category "World" "world";
    seed_category "Business" "business";
    seed_category "Technology" "technology";
    seed_category "Sports" "sports";
    seed_category "Entertainment" "entertainment" ].

Definition seed_article (title summary content author category image_url : string)
    (tags : list string) : doc :=
  <["title" := VStr (lit title)]>
    (<["summary" := VStr (lit summary)]>
       (<["content" := VStr (lit content)]>
          (<["author" := VStr (lit author)]>
             (<["category" := VStr (lit category)]>
                (<["image_url" := VStr (lit image_url)]>
                   (<["tags" := VStrList (map lit tags)]> ∅)))))).

Definition samples : list doc :=
  [ seed_article "Tech giants unveil next-gen AI chips"
      "A new wave of processors promises faster, greener AI."
      "Major semiconductor companies announced..."
      "News Desk" "technology"
      "https://images.unsplash.com/photo-1550751827-4bd374c3f58b?q=80&w=1200&auto=format&fit=crop"
      ["ai"; "chips"; "semiconductor"];
    seed_article "Markets rally as inflation cools"
      "Global markets see gains after latest CPI data."
      "Stocks across major indices rose today..."
      "Finance Team" "business"
      "https://images.unsplash.com/photo-1559526324-593bc073d938?q=80&w=1200&auto=format&fit=crop"
      ["markets"; "inflation"];
    seed_article "Historic win in championship final"
      "An underdog story captures fans worldwide."
      "In a thrilling finale, the underdogs clinched..."
      "Sports Desk" "sports"
      "https://images.unsplash.com/photo-1502877338535-766e1452684a?q=80&w=1200&auto=format&fit=crop"
      ["final"; "championship"] ].

(** The loop over [categories], lines 190-192. *)
Fixpoint seed_categories (cs : list doc) : M unit :=
  match cs with
  | [] => ret tt
  | c :: cs =>
      slug <- getitem c "slug" ;;
      existing <- find_one "category" "slug" slug ;;
      _ <- (if negb (found existing)
            then (_ <- create_document "category" (<["is_active" := VBool true]> c) ;; ret tt)
            else ret tt) ;;
      seed_categories cs
  end.

(** The loop over [samples], lines 225-229; [now i] is what
    [datetime.utcnow()] reads while sample number [i] is handled. *)
Fixpoint seed_samples (now : nat → N) (i : nat) (ss : list doc) (created_count : N) : M N :=
  match ss with
  | [] => ret created_count
  | s :: ss =>
      title <- getitem_str s "title" ;;
      let slug := take 120 (slugify unicode_lower title) in
      existing <- find_one "article" "slug" (VStr slug) ;;
      created_count <-
        (if negb (found existing)
         then (_ <- create_document "article"
                      (<["published_at" := VDatetime (now i)]>
                         (<["is_published" := VBool true]>
                            (<["slug" := VStr slug]> s))) ;;
               ret (created_count + 1))
         else ret created_count) ;;
      seed_samples now (S i) ss created_count
  end.

(** [seed_sample], main.py lines 177-231; the result is the [created]
    field of the response. *)
Definition seed_sample (now : nat → N) : M N :=
  λ db,
    match db with
    | None => raise (HTTPException 500 "Database not available") db
    | Some _ =>
        (_ <- seed_categories categories ;;
         seed_samples now 0%nat samples 0) db
    end.

End Handlers.

(** A sample case table, the identity outside ASCII, to run the
    definitions. *)
Definition no_unicode_lower : str → N → str → str := λ _ c _, [c].


(** ** The read handlers *)

Section Readers.

(** [str(v)] gives a string back as it is and an object identifier as its
    hexadecimal digits; [str_other] is Python's [str] on the values that
    are neither. *)
Variable str_other : value → str.

Definition py_str (v : value) : str :=
  match v with
  | VStr s => s
  | VObjectId n => oid_str n
  | _ => str_other v
  end.

(** [ObjectId(item_id)] of the [bson] package: the identifier the string
    denotes, [None] when the constructor raises. *)
Variable ObjectId : str → option N.

(** [get_article], main.py lines 138-144. *)
Definition get_article (slug : str) : M doc :=
  truth <- db_bool ;;
  doc <- (if truth then find_one "article" "slug" (VStr slug) else ret None) ;;
  if negb (found doc)
  then raise (HTTPException 404 "Article not found")
  else
    match doc with
    | Some doc =>
        oid <- getitem doc "_id" ;;
        ret (<["_id" := VStr (py_str oid)]> doc)
    | None => raise (Exception "TypeError")
    end.

(** [get_article_by_id], main.py lines 147-157. *)
Definition get_article_by_id (item_id : str) : M doc :=
  match ObjectId item_id with
  | None => raise (HTTPException 400 "Invalid id")
  | Some oid =>
      truth <- db_bool ;;
      doc <- (if truth then find_one "article" "_id" (VObjectId oid) else ret None) ;;
      if negb (found doc)
      then raise (HTTPException 404 "Article not found")
      else
        match doc with
        | Some doc =>
            oid <- getitem doc "_id" ;;
            ret (<["_id" := VStr (py_str oid)]> doc)
        | None => raise (Exception "TypeError")
        end
  end.

End Readers.

(** ** The list handlers *)

(** Python's [s < t] on strings: by code points, a proper prefix first. *)
Fixpoint str_lt (s t : str) : bool :=
  match s, t with
  | _, [] => false
  | [], _ :: _ => true
  | a :: s, b :: t => (a <? b) || ((a =? b) && str_lt s t)
  end.

(** [l1 < l2] on lists of strings: decided at the first place where they
    differ. *)
Fixpoint str_list_lt (l1 l2 : list str) : bool :=
  match l1, l2 with
  | _, [] => false
  | [], _ :: _ => true
  | a :: l1, b :: l2 => if bool_decide (a = b) then str_list_lt l1 l2 else str_lt a b
  end.

(** [a < b] on values; [None] when Python raises [TypeError]: for values
    of two kinds, and for [None] on either side. *)
Definition value_lt (a b : value) : option bool :=
  match a, b with
  | VBool x, VBool y => Some (negb x && y)
  | VStr s, VStr t => Some (str_lt s t)
  | VStrList l1, VStrList l2 => Some (str_list_lt l1 l2)
  | VDatetime s, VDatetime t => Some (s <? t)
  | VObjectId m, VObjectId n => Some (m <? n)
  | _, _ => None
  end.

(** [sorted(items, key=key, reverse=reverse)] and [items.sort(...)].  The
    sort of Python is stable, also when reversed, and compares keys with
    [<] only, so its result is the one of the insertion below: [x] goes
    after the documents that must come first and before the others, which
    stood after it.  A comparison that raises makes the sort raise; a list
    of less than two documents is not compared at all. *)
Definition precedes (key : doc → value) (reverse : bool) (y x : doc) : option bool :=
  if reverse then value_lt (key x) (key y) else value_lt (key y) (key x).

Fixpoint insort (first : doc → doc → option bool) (x : doc) (l : list doc)
    : option (list doc) :=
  match l with
  | [] => Some [x]
  | y :: r =>
      match first y x with
      | Some true => (λ l, y :: l) <$> insort first x r
      | Some false => Some (x :: y :: r)
      | None => None
      end
  end.

Fixpoint py_sorted (key : doc → value) (reverse : bool) (items : list doc)
    : option (list doc) :=
  match items with
  | [] => Some []
  | x :: r =>
      match py_sorted key reverse r with
      | Some l => insort (precedes key reverse) x l
      | None => None
      end
  end.

Definition sorted (key : doc → value) (reverse : bool) (items : list doc)
    : M (list doc) :=
  match py_sorted key reverse items with
  | Some l => ret l
  | None => raise (Exception "TypeError")
  end.

(** The queries the handlers build: a dictionary of conditions. *)
Inductive condition :=
| Field (name : string) (v : value)
| FieldIn (name : string) (vs : list value)
| Or (one other : condition)
| Text (search : str).

(** [str(content)[:500] + ("..." if len(str(content)) > 500 else "")],
    line 134. *)
Definition preview (content : str) : str :=
  take 500 content ++ (if (500 <? length content)%nat then lit "..." else []).

(** The sort keys: [x.get("name", "")], line 86, and
    [x.get("published_at") or x.get("created_at")], line 129. *)
Definition name_key (x : doc) : value :=
  match x !! "name" with
  | Some v => v
  | None => VStr []
  end.

Definition date_key (x : doc) : value :=
  let a := dict_get x "published_at" in
  if truthy a then a else dict_get x "created_at".

Section Lists.

Variable str_other : value → str.

(** [get_documents(name, query, limit)] of the absent [database] module,
    as the handlers call it. *)
Variable get_documents : string → list condition → option N → M (list doc).

(** [it["_id"] = str(it.get("_id"))], lines 89 and 132. *)
Definition with_str_id (it : doc) : doc :=
  <["_id" := VStr (py_str str_other (dict_get it "_id"))]> it.

(** [list_categories], main.py lines 82-90; the result is the list under
    ["categories"]. *)
Definition list_categories : M (list doc) :=
  truth <- db_bool ;;
  items <- (if truth
            then get_documents "category" [Field "is_active" (VBool true)] None
            else ret []) ;;
  items <- sorted name_key false items ;;
  ret (with_str_id <$> items).

(** The body of the loop of [list_articles], lines 132-134. *)
Definition article_card (it : doc) : doc :=
  let it := with_str_id it in
  if truthy (dict_get it "content")
  then <["content" := VStr (preview (py_str str_other (dict_get it "content")))]> it
  else it.

(** [list_articles], main.py lines 113-135; [articles_query] is [query]
    after lines 119-126 and the result is the list under ["articles"]. *)
Definition articles_query (category q : option str) : list condition :=
  let query := [Field "is_published" (VBool true)] in
  let query :=
    match category with
    | Some c =>
        if truthy (VStr c)
        then query ++ [Or (Field "category" (VStr c)) (FieldIn "tags" [VStr c])]
        else query
    | None => query
    end in
  match q with
  | Some q => if truthy (VStr q) then query ++ [Text q] else query
  | None => query
  end.

Definition list_articles (category q : option str) (limit : N) : M (list doc) :=
  let query := articles_query category q in
  truth <- db_bool ;;
  items <- (if truth then get_documents "article" query (Some limit) else ret []) ;;
  items <- sorted date_key true items ;;
  ret (article_card <$> items).

End Lists.

(** ** What a collection holds *)

(** The document as [create_document] stores it in collection [c]. *)
Definition stored (c : list doc) (data : doc) : doc :=
  <["_id" := VObjectId (fresh_oid c)]> data.

(** The uniqueness check: a lookup by slug that finds a document. *)
Definition slug_taken (c : list doc) (v : value) : bool :=
  found (List.find (λ x, bool_decide (x !! "slug" = Some v)) c).

(** ** The shape of a slug *)

(** A character of a slug: a lowercase ASCII letter, a digit or a hyphen. *)
Definition slug_char (c : N) : bool := is_az c || is_09 c || is_hyphen c.

(** No hyphen is followed by a hyphen. *)
Fixpoint no_hyphen_pair (s : str) : Prop :=
  match s with
  | a :: r => (a = hyphen → head r ≠ Some hyphen) ∧ no_hyphen_pair r
  | [] => True
  end.

(** A slug: slug characters only, no hyphen at either end, no two hyphens
    in a row. *)
Definition is_slug (s : str) : Prop :=
  Forall (λ c, slug_char c = true) s
  ∧ head s ≠ Some hyphen
  ∧ last s ≠ Some hyphen
  ∧ ∀ i : nat, ¬ (s !! i = Some hyphen ∧ s !! S i = Some hyphen).

(** A letter or a digit of a slug. *)
Definition is_alnum (c : N) : bool := is_az c || is_09 c.

(** The uniqueness of slugs in a collection: the slugs of its documents,
    of those that have one, are pairwise different. *)
Definition unique_slugs (c : list doc) : Prop :=
  NoDup (omap (λ x : doc, x !! "slug") c).

(** ** Sample requests and stores *)

Definition category_request (name : string) (slug : option string) : Category.t :=
  {| Category.name := lit name;
     Category.slug := lit <$> slug;
     Category.description := None;
     Category.is_active := true |}.

Definition article_request (title : str) (slug : option str) (published_at : option N)
    : Article.t :=
  {| Article.title := title;
     Article.slug := slug;
     Article.summary := None;
     Article.content := lit "Major semiconductor companies announced...";
     Article.author := lit "News Desk";
     Article.category := None;
     Article.image_url := None;
     Article.tags := Some [];
     Article.published_at := published_at;
     Article.is_published := true |}.

(** A database whose only document is the seeded category Technology. *)
Definition technology_db : Database :=
  <["category" :=
      [stored [] (<["is_active" := VBool true]> (seed_category "Technology" "technology"))]]> ∅.

(** A title of 130 characters: 119 times [a], a space, 10 times [b]. *)
Definition long_title : str := replicate 119 97 ++ [32] ++ replicate 10 98.

(** A database with the seeded categories World and Business, and one with
    an article that has no date next to one that has. *)
Definition world_business_db : Database :=
  <["category" :=
      [ <["_id" := VObjectId 0]> (seed_category "World" "world");
        <["_id" := VObjectId 1]> (seed_category "Business" "business") ]]> ∅.

Definition undated_db : Database :=
  <["article" :=
      [ <["_id" := VObjectId 0]> (<["slug" := VStr (lit "first")]> ∅);
        <["_id" := VObjectId 1]>
          (<["published_at" := VDatetime 7]> (<["slug" := VStr (lit "second")]> ∅)) ]]> ∅.

Definition dated_db : Database :=
  <["article" :=
      [ <["_id" := VObjectId 0]>
          (<["published_at" := VDatetime 3]>
             (<["content" := VStr (replicate 600 97)]> (<["slug" := VStr (lit "old")]> ∅)));
        <["_id" := VObjectId 1]>
          (<["published_at" := VDatetime 7]>
             (<["content" := VStr (lit "short")]> (<["slug" := VStr (lit "new")]> ∅))) ]]> ∅.

(** A sample [get_documents]: every document of the collection. *)
Definition get_all_documents : string → list condition → option N → M (list doc) :=
  λ name _ _ db,
    match db with
    | Some d => (Return (collection d name), db)
    | None => (Raise (Exception "Database not available"), db)
    end.

(** A sample [str] for the other values and a sample [ObjectId]: the
    empty string, and the value of twenty-four hexadecimal digits. *)
Definition no_str_other : value → str := λ _, [].

Definition hex_value (c : N) : option N :=
  if is_09 c then Some (c - 48)
  else if in_range 97 102 c then Some (c - 87)
  else if in_range 65 70 c then Some (c - 55)
  else None.

Fixpoint hex_number (acc : N) (s : str) : option N :=
  match s with
  | [] => Some acc
  | c :: r =>
      match hex_value c with
      | Some v => hex_number (16 * acc + v) r
      | None => None
      end
  end.

Definition hex_ObjectId (s : str) : option N :=
  if bool_decide (length s = 24%nat) then hex_number 0 s else None.

(** * Properties *)

(** ** Character classes *)

Ltac bool_arith :=
  unfold slug_char, kept, is_sep, isspace, is_hyphen, is_az, is_09,
    is_ascii_upper, in_range, hyphen in *;
  rewrite ?orb_true_iff, ?andb_true_iff, ?orb_false_iff, ?andb_false_iff,
    ?negb_true_iff, ?negb_false_iff,
    ?N.leb_le, ?N.leb_gt, ?N.eqb_eq, ?N.eqb_neq, ?N.ltb_lt, ?N.ltb_ge in *;
  try lia.

Lemma slug_char_kept c : slug_char c = true → kept c = true.
Proof. bool_arith. Qed.

Lemma slug_char_not_space c : slug_char c = true → isspace c = false.
Proof. bool_arith. Qed.

Lemma slug_char_sep c : slug_char c = true → is_sep c = true → c = hyphen.
Proof. bool_arith. Qed.

Lemma kept_not_sep c : kept c = true → is_sep c = false → slug_char c = true ∧ c ≠ hyphen.
Proof. bool_arith. Qed.

Lemma slug_char_ascii_lower c :
  slug_char c = true → (c <? 128) = true ∧ is_ascii_upper c = false.
Proof. bool_arith. Qed.

Lemma is_hyphen_true c : is_hyphen c = true ↔ c = hyphen.
Proof. unfold is_hyphen. apply N.eqb_eq. Qed.

Lemma is_hyphen_false c : is_hyphen c = false ↔ c ≠ hyphen.
Proof. unfold is_hyphen. apply N.eqb_neq. Qed.

(** ** [strip] *)

Section Strip.

Variable p : N → bool.

(** What [lstrip] drops is a prefix made of characters of the class. *)
Lemma lstrip_split s :
  ∃ l, s = l ++ lstrip p s ∧ Forall (λ c, p c = true) l.
Proof.
  induction s as [|c r IH]; simpl.
  - by exists [].
  - destruct (p c) eqn:Hc.
    + destruct IH as (l & Hl & Hall).
      exists (c :: l). split; [by rewrite <- app_comm_cons, <- Hl | by constructor].
    + by exists [].
Qed.

Lemma lstrip_head s c : head (lstrip p s) = Some c → p c = false.
Proof.
  induction s as [|a r IH]; simpl; [done|].
  destruct (p a) eqn:Ha; [done|].
  simpl. by intros [= <-].
Qed.

Lemma lstrip_last s c : last (lstrip p s) = Some c → last s = Some c.
Proof.
  destruct (lstrip_split s) as (l & Hl & _).
  intros Hc. rewrite Hl, last_app, Hc. done.
Qed.

Lemma lstrip_id s : (∀ c, head s = Some c → p c = false) → lstrip p s = s.
Proof.
  destruct s as [|a r]; simpl; [done|].
  intros H. by rewrite (H a).
Qed.

Lemma rstrip_split s :
  ∃ l, s = rstrip p s ++ l ∧ Forall (λ c, p c = true) l.
Proof.
  unfold rstrip.
  destruct (lstrip_split (reverse s)) as (l & Hl & Hall).
  exists (reverse l). split.
  - rewrite <- reverse_app, <- Hl. by rewrite reverse_involutive.
  - by apply Forall_reverse.
Qed.

Lemma rstrip_last s c : last (rstrip p s) = Some c → p c = false.
Proof. unfold rstrip. rewrite last_reverse. apply lstrip_head. Qed.

Lemma rstrip_head s c : head (rstrip p s) = Some c → head s = Some c.
Proof.
  unfold rstrip. rewrite head_reverse. intros H.
  apply lstrip_last in H. by rewrite last_reverse in H.
Qed.

Lemma rstrip_id s : (∀ c, last s = Some c → p c = false) → rstrip p s = s.
Proof.
  intros H. unfold rstrip. rewrite lstrip_id.
  - apply reverse_involutive.
  - intros c. rewrite head_reverse. apply H.
Qed.

(** The result of [strip] is a segment of its argument. *)
Lemma strip_split s : ∃ l1 l2, s = l1 ++ strip p s ++ l2.
Proof.
  unfold strip.
  destruct (lstrip_split s) as (l1 & H1 & _).
  destruct (rstrip_split (lstrip p s)) as (l2 & H2 & _).
  exists l1, l2. by rewrite <- H2.
Qed.

Lemma strip_head s c : head (strip p s) = Some c → p c = false.
Proof. unfold strip. intros H. apply rstrip_head in H. by apply lstrip_head in H. Qed.

Lemma strip_last s c : last (strip p s) = Some c → p c = false.
Proof. apply rstrip_last. Qed.

Lemma strip_id s :
  (∀ c, head s = Some c → p c = false) →
  (∀ c, last s = Some c → p c = false) →
  strip p s = s.
Proof. intros Hh Hl. unfold strip. rewrite lstrip_id by done. by apply rstrip_id. Qed.

End Strip.

(** ** Segments keep the shape *)

Lemma no_hyphen_pair_lookup s :
  no_hyphen_pair s ↔ ∀ i : nat, ¬ (s !! i = Some hyphen ∧ s !! S i = Some hyphen).
Proof.
  induction s as [|a r IH]; simpl.
  - split; [|done]. intros _ i [H _]. done.
  - rewrite IH. split.
    + intros [Ha Hr] [|i]; simpl.
      * intros [[= ->] H1]. apply Ha; [done|]. by rewrite head_lookup.
      * apply Hr.
    + intros H. split.
      * intros -> Hh. apply (H 0%nat). simpl. by rewrite <- head_lookup.
      * intros i. apply (H (S i)).
Qed.

Lemma hyphen_pair_segment (l1 m l2 : str) (i : nat) :
  m !! i = Some hyphen ∧ m !! S i = Some hyphen →
  (l1 ++ m ++ l2) !! (length l1 + i)%nat = Some hyphen
  ∧ (l1 ++ m ++ l2) !! S (length l1 + i)%nat = Some hyphen.
Proof.
  intros [H1 H2]. split.
  - rewrite lookup_app_r by lia.
    replace (length l1 + i - length l1)%nat with i by lia.
    by apply lookup_app_l_Some.
  - rewrite lookup_app_r by lia.
    replace (S (length l1 + i) - length l1)%nat with (S i) by lia.
    by apply lookup_app_l_Some.
Qed.

Lemma no_hyphen_pair_segment (l1 m l2 : str) :
  no_hyphen_pair (l1 ++ m ++ l2) → no_hyphen_pair m.
Proof.
  rewrite !no_hyphen_pair_lookup. intros H i Hi.
  apply (H (length l1 + i)%nat). by apply hyphen_pair_segment.
Qed.

Lemma no_hyphen_pair_strip p s : no_hyphen_pair s → no_hyphen_pair (strip p s).
Proof.
  destruct (strip_split p s) as (l1 & l2 & Hs). intros H.
  rewrite Hs in H. by apply no_hyphen_pair_segment in H.
Qed.

Lemma Forall_strip (P : N → Prop) p s : Forall P s → Forall P (strip p s).
Proof.
  destruct (strip_split p s) as (l1 & l2 & Hs). intros H.
  rewrite Hs in H. apply Forall_app in H as [_ H]. by apply Forall_app in H as [H _].
Qed.

(** ** The two substitutions *)

Lemma re_sub_char_delete cls s :
  re_sub_char cls [] s = List.filter (λ c, negb (cls c)) s.
Proof.
  induction s as [|c r IH]; simpl; [done|].
  destruct (cls c); simpl; by rewrite IH.
Qed.

Lemma re_sub_char_kept s :
  Forall (λ c, kept c = true) (re_sub_char (λ c, negb (kept c)) [] s).
Proof.
  induction s as [|c r IH]; simpl; [constructor|].
  destruct (kept c) eqn:Hc; simpl; [by constructor | done].
Qed.

Lemma re_sub_char_id s :
  Forall (λ c, kept c = true) s → re_sub_char (λ c, negb (kept c)) [] s = s.
Proof.
  induction 1 as [|c r Hc _ IH]; simpl; [done|].
  by rewrite Hc, IH.
Qed.

Lemma re_sub_char_nil cls s :
  Forall (λ c, cls c = true) s → re_sub_char cls [] s = [].
Proof.
  induction 1 as [|c r Hc _ IH]; simpl; [done|].
  by rewrite Hc, IH.
Qed.

(** After the runs are collapsed only slug characters are left and no
    hyphen follows a hyphen; inside a run the result does not start with a
    hyphen. *)
Lemma re_sub_plus_shape s : ∀ in_run,
  Forall (λ c, kept c = true) s →
  let r := re_sub_plus_from is_sep [hyphen] in_run s in
  Forall (λ c, slug_char c = true) r
  ∧ no_hyphen_pair r
  ∧ (in_run = true → head r ≠ Some hyphen).
Proof.
  induction s as [|c r IH]; intros in_run Hall; simpl.
  - repeat split; [constructor | by intros _].
  - apply Forall_cons in Hall as [Hc Hall].
    destruct (is_sep c) eqn:Hsep.
    + destruct (IH true Hall) as (HF & HP & HH).
      destruct in_run; simpl.
      * done.
      * repeat split; [by constructor | by intros _; apply HH | done | done].
    + destruct (IH false Hall) as (HF & HP & _).
      destruct (kept_not_sep c Hc Hsep) as [Hslug Hne].
      simpl. repeat split; [by constructor | done | done | ].
      intros _ [= ?]. done.
Qed.

Lemma re_sub_plus_id s : ∀ in_run,
  Forall (λ c, slug_char c = true) s →
  no_hyphen_pair s →
  (in_run = true → head s ≠ Some hyphen) →
  re_sub_plus_from is_sep [hyphen] in_run s = s.
Proof.
  induction s as [|c r IH]; intros in_run Hall Hpair Hhead; simpl; [done|].
  apply Forall_cons in Hall as [Hc Hall]. destruct Hpair as [Hc' Hpair].
  destruct (is_sep c) eqn:Hsep.
  - assert (c = hyphen) as -> by by apply slug_char_sep.
    destruct in_run; [by destruct Hhead|].
    simpl. f_equal. apply IH; [done | done | by intros _; apply Hc'].
  - f_equal. apply IH; [done | done | done].
Qed.

(** ** [lower] *)

Section Lower.

Variable unicode_lower : str → N → str → str.

(** Slug characters are their own lowercase. *)
Lemma lower_from_id s : ∀ before,
  Forall (λ c, slug_char c = true) s → lower_from unicode_lower before s = s.
Proof.
  induction s as [|c r IH]; intros before Hall; simpl; [done|].
  apply Forall_cons in Hall as [Hc Hall].
  unfold lower_char.
  destruct (slug_char_ascii_lower c Hc) as [-> ->].
  simpl. f_equal. by apply IH.
Qed.

(** ASCII characters outside [a-z0-9], whitespace and the hyphen stay
    outside when lowered, apart from the upper case letters. *)
Lemma lower_from_ascii s : ∀ before,
  Forall (λ c, c < 128) s →
  lower_from unicode_lower before s
  = map (λ c, if is_ascii_upper c then c + 32 else c) s.
Proof.
  induction s as [|c r IH]; intros before Hall; simpl; [done|].
  apply Forall_cons in Hall as [Hc Hall].
  unfold lower_char. apply N.ltb_lt in Hc as ->.
  simpl. f_equal. by apply IH.
Qed.

(** ** The output of [slugify] *)

Lemma slugify_is_slug text : is_slug (slugify unicode_lower text).
Proof.
  unfold slugify, re_sub_plus.
  set (t := re_sub_char _ _ _).
  destruct (re_sub_plus_shape t false (re_sub_char_kept _)) as (HF & HP & _).
  set (u := re_sub_plus_from _ _ _ _) in *.
  repeat split.
  - by apply Forall_strip.
  - intros H. apply strip_head in H. by apply is_hyphen_false in H.
  - intros H. apply strip_last in H. by apply is_hyphen_false in H.
  - apply no_hyphen_pair_lookup. by apply no_hyphen_pair_strip.
Qed.

Lemma slugify_slug s : is_slug s → slugify unicode_lower s = s.
Proof.
  intros (HF & Hh & Hl & HP).
  assert (∀ c, head s = Some c → slug_char c = true) as Hhead.
  { intros c Hc. apply head_Some_elem_of in Hc.
    by apply (proj1 (Forall_forall _ _) HF). }
  assert (∀ c, last s = Some c → slug_char c = true) as Hlast.
  { intros c Hc. apply last_Some_elem_of in Hc.
    by apply (proj1 (Forall_forall _ _) HF). }
  unfold slugify, lower, re_sub_plus.
  rewrite lower_from_id by done.
  rewrite (strip_id isspace s);
    [| intros c Hc; by apply slug_char_not_space, Hhead
     | intros c Hc; by apply slug_char_not_space, Hlast ].
  rewrite re_sub_char_id
    by (eapply Forall_impl; [exact HF | exact slug_char_kept]).
  rewrite re_sub_plus_id; [| done | by apply no_hyphen_pair_lookup | done].
  apply strip_id.
  - intros c Hc. apply is_hyphen_false. by intros ->.
  - intros c Hc. apply is_hyphen_false. by intros ->.
Qed.

End Lower.

(** ** The store *)

Lemma collection_insert_eq (d : Database) name l :
  collection (<[name := l]> d) name = l.
Proof. unfold collection. by rewrite lookup_insert_eq. Qed.

Lemma collection_insert_ne (d : Database) n1 n2 l :
  n1 ≠ n2 → collection (<[n1 := l]> d) n2 = collection d n2.
Proof. intros H. unfold collection. by rewrite lookup_insert_ne. Qed.

Lemma oid_of_le (c : list doc) x : x ∈ c → oid_of x ≤ fresh_oid c.
Proof.
  induction 1 as [x c | x y c _ IH]; simpl; lia.
Qed.

(** The identifier [create_document] picks is the identifier of no document
    of the collection. *)
Lemma fresh_oid_fresh (c : list doc) x :
  x ∈ c → x !! "_id" ≠ Some (VObjectId (fresh_oid c)).
Proof.
  intros Hx Hid. apply oid_of_le in Hx.
  unfold oid_of in Hx. rewrite Hid in Hx. lia.
Qed.

Lemma find_app_none {A} (f : A → bool) l1 l2 :
  (∀ x, x ∈ l1 → f x = false) → List.find f (l1 ++ l2) = List.find f l2.
Proof.
  induction l1 as [|a l1 IH]; intros H; simpl; [done|].
  rewrite (H a) by constructor.
  apply IH. intros x Hx. apply H. by constructor.
Qed.

Lemma find_app_some {A} (f : A → bool) l1 l2 x :
  List.find f l1 = Some x → List.find f (l1 ++ l2) = Some x.
Proof.
  induction l1 as [|a l1 IH]; simpl; [done|].
  destruct (f a); [done | apply IH].
Qed.

(** Looking the stored document up by its identifier finds it. *)
Lemma find_stored (c : list doc) data :
  List.find (λ x, bool_decide (x !! "_id" = Some (VObjectId (fresh_oid c))))
    (c ++ [stored c data])
  = Some (stored c data).
Proof.
  rewrite find_app_none.
  - simpl. unfold stored. rewrite lookup_insert_eq.
    by rewrite bool_decide_eq_true_2.
  - intros x Hx. apply bool_decide_eq_false_2. by apply fresh_oid_fresh.
Qed.

Lemma slug_taken_iff (c : list doc) v :
  slug_taken c v = true ↔ ∃ x, x ∈ c ∧ x !! "slug" = Some v.
Proof.
  unfold slug_taken, found. split.
  - destruct (List.find _ c) as [x|] eqn:Hf; [|done].
    intros _. apply find_some in Hf as [Hin Hx].
    exists x. split; [by apply list_elem_of_In | by apply bool_decide_eq_true in Hx].
  - intros (x & Hin & Hx).
    destruct (List.find _ c) as [y|] eqn:Hf.
    + apply find_some in Hf as [_ Hy]. apply bool_decide_eq_true in Hy.
      apply negb_true_iff, bool_decide_eq_false_2. intros ->.
      by rewrite lookup_empty in Hy.
    + apply list_elem_of_In in Hin. apply (find_none _ _ Hf) in Hin.
      by apply bool_decide_eq_false in Hin.
Qed.

Lemma slug_taken_false (c : list doc) v :
  slug_taken c v = false ↔ ∀ x, x ∈ c → x !! "slug" ≠ Some v.
Proof.
  rewrite <- not_true_iff_false, slug_taken_iff. split.
  - intros H x Hin Hx. apply H. by exists x.
  - intros H (x & Hin & Hx). by apply (H x).
Qed.

Lemma slug_taken_app (c l : list doc) v :
  slug_taken c v = true → slug_taken (c ++ l) v = true.
Proof.
  rewrite !slug_taken_iff. intros (x & Hin & Hx).
  exists x. split; [apply elem_of_app; by left | done].
Qed.

Lemma slug_taken_stored (c : list doc) data v :
  data !! "slug" = Some v → slug_taken (c ++ [stored c data]) v = true.
Proof.
  intros H. apply slug_taken_iff. exists (stored c data). split.
  - apply elem_of_app. right. constructor.
  - unfold stored. by rewrite lookup_insert_ne.
Qed.

(** ** The create handlers, step by step *)

(** Lookups in dictionaries built by insertions under literal keys. *)
Ltac map_lookup :=
  repeat first
    [ rewrite lookup_insert_eq
    | rewrite lookup_insert_ne by (intros [=]) ];
  rewrite ?lookup_empty.

Lemma truthy_optional_str o :
  truthy (of_optional VStr o) = match o with Some (_ :: _) => true | _ => false end.
Proof. by destruct o as [[|c s]|]. Qed.

Lemma truthy_optional_datetime o :
  truthy (of_optional VDatetime o) = bool_decide (is_Some o).
Proof. by destruct o. Qed.

Section Create.

Variable unicode_lower : str → N → str → str.

(** The candidate slug: the explicit one when it is not empty, the
    normalised display field otherwise. *)
Lemma category_data_slug p :
  category_data unicode_lower p !! "slug"
  = Some (VStr (match Category.slug p with
                | Some (c :: s) => c :: s
                | _ => slugify unicode_lower (Category.name p)
                end)).
Proof.
  unfold category_data, Category.model_dump, dict_get.
  map_lookup. cbn beta iota. rewrite truthy_optional_str.
  destruct (Category.slug p) as [[|c s]|]; cbn [negb of_optional]; by map_lookup.
Qed.

Lemma article_data_slug now p :
  article_data unicode_lower now p !! "slug"
  = Some (VStr (match Article.slug p with
                | Some (c :: s) => c :: s
                | _ => take 120 (slugify unicode_lower (Article.title p))
                end)).
Proof.
  unfold article_data, Article.model_dump, dict_get.
  map_lookup. cbn beta iota. rewrite truthy_optional_str.
  destruct (Article.slug p) as [[|c s]|]; cbn [negb of_optional];
    map_lookup; cbn beta iota; rewrite truthy_optional_datetime;
    destruct (Article.published_at p); cbn [negb bool_decide];
    by map_lookup.
Qed.

Lemma article_data_published_at now p :
  article_data unicode_lower now p !! "published_at"
  = Some (VDatetime (default now (Article.published_at p))).
Proof.
  unfold article_data, Article.model_dump, dict_get.
  map_lookup. cbn beta iota. rewrite truthy_optional_str.
  destruct (Article.slug p) as [[|c s]|]; cbn [negb of_optional];
    map_lookup; cbn beta iota; rewrite truthy_optional_datetime;
    destruct (Article.published_at p); cbn [negb bool_decide];
    by map_lookup.
Qed.

(** With a database, both handlers stop at the truth test of the handle:
    before the lookup, before the insertion, the database as it was. *)
Lemma create_category_run p d :
  create_category unicode_lower p (Some d)
  = (Raise (Exception "NotImplementedError"), Some d).
Proof. reflexivity. Qed.

Lemma create_article_run now p d :
  create_article unicode_lower now p (Some d)
  = (Raise (Exception "NotImplementedError"), Some d).
Proof. reflexivity. Qed.

(** Without a database the lookup is skipped and both handlers fail in
    [create_document]. *)
Lemma create_category_unavailable p :
  create_category unicode_lower p None
  = (Raise (Exception "Database not available"), None).
Proof.
  unfold create_category, bind, db_bool, ret. cbn beta iota.
  unfold found, create_document. reflexivity.
Qed.

Lemma create_article_unavailable now p :
  create_article unicode_lower now p None
  = (Raise (Exception "Database not available"), None).
Proof.
  unfold create_article, bind, db_bool, ret. cbn beta iota.
  unfold found, create_document. reflexivity.
Qed.

(** A handler that raises leaves the handle as it found it. *)
Lemma create_category_raise p db e db' :
  create_category unicode_lower p db = (Raise e, db') → db' = db.
Proof.
  destruct db as [d|].
  - rewrite create_category_run. by intros [= _ <-].
  - rewrite create_category_unavailable. by intros [= _ <-].
Qed.

Lemma create_article_raise now p db e db' :
  create_article unicode_lower now p db = (Raise e, db') → db' = db.
Proof.
  destruct db as [d|].
  - rewrite create_article_run. by intros [= _ <-].
  - rewrite create_article_unavailable. by intros [= _ <-].
Qed.

End Create.

(** ** The seed loops *)

Lemma seed_categories_cons c cs v d :
  c !! "slug" = Some v →
  seed_categories (c :: cs) (Some d)
  = seed_categories cs
      (Some (if slug_taken (collection d "category") v
             then d
             else <["category" := collection d "category"
                      ++ [stored (collection d "category") (<["is_active" := VBool true]> c)]]> d)).
Proof.
  intros Hv. cbn [seed_categories].
  unfold bind at 1. unfold getitem. rewrite Hv. unfold ret at 1.
  unfold bind at 1. unfold find_one. fold (slug_taken (collection d "category") v).
  unfold bind at 1.
  by destruct (slug_taken _ _).
Qed.

(** One pass over the categories returns, leaves the articles alone, frees
    no slug and leaves every slug of the list taken. *)
Lemma seed_categories_run cs :
  Forall (λ c : doc, is_Some (c !! "slug")) cs →
  ∀ d, ∃ d',
    seed_categories cs (Some d) = (Return tt, Some d')
    ∧ collection d' "article" = collection d "article"
    ∧ (∀ v, slug_taken (collection d "category") v = true →
            slug_taken (collection d' "category") v = true)
    ∧ Forall (λ c : doc, ∀ v, c !! "slug" = Some v →
                slug_taken (collection d' "category") v = true) cs.
Proof.
  induction 1 as [|c cs [v Hv] _ IH]; intros d.
  - exists d. by repeat split.
  - rewrite (seed_categories_cons c cs v d Hv).
    set (d1 := if slug_taken _ _ then d else _).
    assert (collection d1 "article" = collection d "article") as Harticle.
    { unfold d1. destruct (slug_taken _ _); [done|].
      by apply collection_insert_ne. }
    assert (∀ w, slug_taken (collection d "category") w = true →
                 slug_taken (collection d1 "category") w = true) as Hmono.
    { intros w Hw. unfold d1. destruct (slug_taken _ v); [done|].
      rewrite collection_insert_eq. by apply slug_taken_app. }
    assert (slug_taken (collection d1 "category") v = true) as Hdone.
    { unfold d1. destruct (slug_taken _ v) eqn:Ht; [done|].
      rewrite collection_insert_eq. apply slug_taken_stored.
      by rewrite lookup_insert_ne. }
    destruct (IH d1) as (d' & Hrun & Ha & Hm & Hall).
    exists d'. repeat split.
    + done.
    + by rewrite Ha.
    + intros w Hw. by apply Hm, Hmono.
    + constructor; [|done].
      intros w Hw. rewrite Hv in Hw. injection Hw as <-. by apply Hm.
Qed.

(** When every slug of the list is taken, a pass creates nothing. *)
Lemma seed_categories_noop cs d :
  Forall (λ c : doc, ∃ v, c !! "slug" = Some v
            ∧ slug_taken (collection d "category") v = true) cs →
  seed_categories cs (Some d) = (Return tt, Some d).
Proof.
  induction 1 as [|c cs (v & Hv & Ht) _ IH]; [done|].
  by rewrite (seed_categories_cons c cs v d Hv), Ht.
Qed.

Section Seed.

Variable unicode_lower : str → N → str → str.

Lemma seed_samples_cons now i s ss n t d :
  s !! "title" = Some (VStr t) →
  seed_samples unicode_lower now i (s :: ss) n (Some d)
  = if slug_taken (collection d "article") (VStr (take 120 (slugify unicode_lower t)))
    then seed_samples unicode_lower now (S i) ss n (Some d)
    else seed_samples unicode_lower now (S i) ss (n + 1)
           (Some (<["article" := collection d "article"
                    ++ [stored (collection d "article")
                          (<["published_at" := VDatetime (now i)]>
                             (<["is_published" := VBool true]>
                                (<["slug" := VStr (take 120 (slugify unicode_lower t))]> s)))]]> d)).
Proof.
  intros Ht. cbn [seed_samples].
  unfold bind at 1. unfold getitem_str. rewrite Ht. unfold ret at 1.
  unfold bind at 1. unfold find_one.
  fold (slug_taken (collection d "article")
          (VStr (take 120 (slugify unicode_lower t)))).
  unfold bind at 1.
  by destruct (slug_taken _ _).
Qed.

Lemma seed_samples_run now ss :
  Forall (λ s : doc, ∃ t, s !! "title" = Some (VStr t)) ss →
  ∀ i n d, ∃ r d',
    seed_samples unicode_lower now i ss n (Some d) = (Return r, Some d')
    ∧ collection d' "category" = collection d "category"
    ∧ (∀ v, slug_taken (collection d "article") v = true →
            slug_taken (collection d' "article") v = true)
    ∧ Forall (λ s : doc, ∀ t, s !! "title" = Some (VStr t) →
                slug_taken (collection d' "article") (VStr (take 120 (slugify unicode_lower t))) = true) ss.
Proof.
  induction 1 as [|s ss [t Ht] _ IH]; intros i n d.
  - exists n, d. by repeat split.
  - rewrite (seed_samples_cons now i s ss n t d Ht).
    destruct (slug_taken (collection d "article") (VStr (take 120 (slugify unicode_lower t)))) eqn:Htaken.
    + destruct (IH (S i) n d) as (r & d' & Hrun & Hc & Hm & Hall).
      exists r, d'. repeat split; [done | done | done |].
      constructor; [|done].
      intros t' Ht'. rewrite Ht in Ht'. injection Ht' as <-. by apply Hm.
    + set (d1 := <["article" := _]> d).
      destruct (IH (S i) (n + 1) d1) as (r & d' & Hrun & Hc & Hm & Hall).
      exists r, d'. repeat split.
      * done.
      * rewrite Hc. by apply collection_insert_ne.
      * intros v Hv. apply Hm. unfold d1.
        rewrite collection_insert_eq. by apply slug_taken_app.
      * constructor; [|done].
        intros t' Ht'. rewrite Ht in Ht'. injection Ht' as <-.
        apply Hm. unfold d1. rewrite collection_insert_eq.
        apply slug_taken_stored. by map_lookup.
Qed.

Lemma seed_samples_noop now ss d :
  Forall (λ s : doc, ∃ t, s !! "title" = Some (VStr t)
            ∧ slug_taken (collection d "article") (VStr (take 120 (slugify unicode_lower t))) = true) ss →
  ∀ i n, seed_samples unicode_lower now i ss n (Some d) = (Return n, Some d).
Proof.
  induction 1 as [|s ss (t & Ht & Htaken) _ IH]; intros i n; [done|].
  rewrite (seed_samples_cons now i s ss n t d Ht), Htaken. apply IH.
Qed.

End Seed.

Lemma categories_have_slug : Forall (λ c : doc, is_Some (c !! "slug")) categories.
Proof.
  unfold categories, seed_category.
  repeat constructor; map_lookup; eauto.
Qed.

Lemma samples_have_title :
  Forall (λ s : doc, ∃ t, s !! "title" = Some (VStr t)) samples.
Proof.
  unfold samples, seed_article.
  repeat constructor; eexists; by map_lookup.
Qed.

(** ** Lookups in documents *)

Lemma stored_lookup (c : list doc) (data : doc) k :
  k ≠ "_id" → stored c data !! k = data !! k.
Proof. intros H. unfold stored. by rewrite lookup_insert_ne. Qed.

(** * Main results *)

(** ** [slugify] *)

(** C1: for every input text, the output of [slugify] holds only lowercase
    ASCII letters, digits and hyphens, neither starts nor ends with a
    hyphen, and has no two hyphens in a row. *)
Theorem slugify_output_shape (unicode_lower : str → N → str → str) (text : str) :
  let s := slugify unicode_lower text in
  (∀ c, c ∈ s → is_az c = true ∨ is_09 c = true ∨ c = hyphen)
  ∧ head s ≠ Some hyphen
  ∧ last s ≠ Some hyphen
  ∧ ∀ i : nat, ¬ (s !! i = Some hyphen ∧ s !! S i = Some hyphen).
Proof.
  destruct (slugify_is_slug unicode_lower text) as (HF & Hh & Hl & HP).
  cbn zeta. repeat split; [| done | done | done].
  intros c Hc. apply (proj1 (Forall_forall _ _) HF) in Hc.
  unfold slug_char in Hc.
  apply orb_true_iff in Hc as [Hc|Hc]; [apply orb_true_iff in Hc as [Hc|Hc]|].
  - by left.
  - by right; left.
  - right; right. by apply is_hyphen_true.
Qed.

(** C2: [slugify] is idempotent, [slugify (slugify x) = slugify x] for
    every text [x]. *)
Theorem slugify_idempotent (unicode_lower : str → N → str → str) (x : str) :
  slugify unicode_lower (slugify unicode_lower x) = slugify unicode_lower x.
Proof. apply slugify_slug, slugify_is_slug. Qed.

(** C6: the two examples of the specification,
    [slugify "Tech Giants Unveil Next-Gen AI Chips!!"] is
    ["tech-giants-unveil-next-gen-ai-chips"] and
    [slugify "  Hello---World  "] is ["hello-world"]. *)
Theorem slugify_examples (unicode_lower : str → N → str → str) :
  slugify unicode_lower (lit "Tech Giants Unveil Next-Gen AI Chips!!")
  = lit "tech-giants-unveil-next-gen-ai-chips"
  ∧ slugify unicode_lower (lit "  Hello---World  ") = lit "hello-world".
Proof. split; reflexivity. Qed.

(** C8: a text that, once lowered, holds no lowercase letter, digit,
    whitespace or hyphen is normalised to the empty string; ["!!!"] is
    such a text. *)
Theorem slugify_empty (unicode_lower : str → N → str → str) (text : str) :
  Forall (λ c, kept c = false) (lower unicode_lower text) →
  slugify unicode_lower text = [].
Proof.
  intros Hall. unfold slugify.
  rewrite re_sub_char_nil; [done|].
  apply (Forall_strip (λ c, kept c = false) isspace) in Hall.
  eapply Forall_impl; [exact Hall|].
  intros c Hc. cbn beta. by rewrite Hc.
Qed.

Lemma slugify_empty_witness :
  Forall (λ c, kept c = false) (lower no_unicode_lower (lit "!!!"))
  ∧ slugify no_unicode_lower (lit "!!!") = [].
Proof.
  split.
  - repeat constructor.
  - apply (slugify_empty no_unicode_lower (lit "!!!")). repeat constructor.
Defined.

(** ** Creation *)

(** C3, the code where the claim fails.  The category [technology] is
    stored and a category named "Technology" has its slug as candidate; on
    the connected handle [create_category] raises [NotImplementedError] at
    the truth test of line 99, not the "already exists" error of line 101.
    The database is left as it was, as after every creation that
    raises. *)
Theorem conflict_not_reported (unicode_lower : str → N → str → str) :
  let p := category_request "Technology" None in
  (∃ x, x ∈ collection technology_db "category"
        ∧ x !! "slug" = category_data unicode_lower p !! "slug")
  ∧ create_category unicode_lower p (Some technology_db)
    = (Raise (Exception "NotImplementedError"), Some technology_db)
  ∧ (∀ p db e db', create_category unicode_lower p db = (Raise e, db') → db' = db)
  ∧ (∀ now p db e db',
       create_article unicode_lower now p db = (Raise e, db') → db' = db).
Proof.
  cbn zeta. split_and!.
  - eexists. split.
    + unfold technology_db. rewrite collection_insert_eq. apply list_elem_of_here.
    + rewrite category_data_slug. vm_compute. reflexivity.
  - apply create_category_run.
  - apply create_category_raise.
  - apply create_article_raise.
Qed.

(** C5, the code where the claim fails.  No category has the slug "world"
    and the request carries it; the handler keeps it as the candidate,
    as it was given, but on the connected handle [create_category] raises
    [NotImplementedError] at the truth test of line 99 and nothing is
    created. *)
Theorem explicit_slug_not_created (unicode_lower : str → N → str → str) :
  let p := category_request "World" (Some "world") in
  (∀ x, x ∈ collection technology_db "category" →
        x !! "slug" ≠ Some (VStr (lit "world")))
  ∧ category_data unicode_lower p !! "slug" = Some (VStr (lit "world"))
  ∧ create_category unicode_lower p (Some technology_db)
    = (Raise (Exception "NotImplementedError"), Some technology_db).
Proof.
  cbn zeta. split_and!.
  - apply slug_taken_false. vm_compute. reflexivity.
  - by rewrite category_data_slug.
  - apply create_category_run.
Qed.

(** C7, the code where the claim fails.  An article without
    [published_at] is sent at time 7 to the empty, connected database: the
    handler sets [published_at] to 7 in the data (line 166), then raises
    [NotImplementedError] at the truth test of line 167; the database is
    still empty, no article is persisted. *)
Theorem published_at_not_persisted (unicode_lower : str → N → str → str) :
  let p := article_request (lit "Markets rally as inflation cools") None None in
  article_data unicode_lower 7 p !! "published_at" = Some (VDatetime 7)
  ∧ create_article unicode_lower 7 p (Some ∅)
    = (Raise (Exception "NotImplementedError"), Some ∅).
Proof.
  cbn zeta. split; [|apply create_article_run].
  by rewrite article_data_published_at.
Qed.

(** C9: an explicit slug that is the empty string counts as no slug: the
    candidate is the normalised name for a category, and the first 120
    characters of the normalised title for an article. *)
Theorem empty_slug_is_absent (unicode_lower : str → N → str → str) (now : N) :
  (∀ p, Category.slug p = Some [] →
        category_data unicode_lower p !! "slug"
        = Some (VStr (slugify unicode_lower (Category.name p))))
  ∧ (∀ p, Article.slug p = Some [] →
          article_data unicode_lower now p !! "slug"
          = Some (VStr (take 120 (slugify unicode_lower (Article.title p))))).
Proof.
  split; intros p Hp.
  - by rewrite category_data_slug, Hp.
  - by rewrite article_data_slug, Hp.
Qed.

Lemma empty_slug_is_absent_witness :
  category_data no_unicode_lower (category_request "Technology" (Some "")) !! "slug"
  = Some (VStr (lit "technology")).
Proof.
  exact (proj1 (empty_slug_is_absent no_unicode_lower 0)
           (category_request "Technology" (Some "")) eq_refl).
Defined.

(** ** Truncation of article slugs *)

Lemma last_take_120 (l : str) :
  (120 < length l)%nat →
  length (take 120 l) = 120%nat
  ∧ (last (take 120 l) = Some hyphen ↔ l !! 119%nat = Some hyphen).
Proof.
  intros Hlen.
  assert (length (take 120 l) = 120%nat) as Htake by (rewrite length_take; lia).
  split; [done|].
  rewrite last_lookup, Htake. cbn [pred].
  by rewrite lookup_take_lt by lia.
Qed.

(** C4, as the code has it: for an article without a slug whose
    normalised title is longer than 120 characters, the slug the handler
    sets (line 164) is exactly the first 120 characters of the normalised
    title; that slug ends with a hyphen exactly when the 120th character
    of the normalised title is a hyphen. *)
Theorem truncated_slug (unicode_lower : str → N → str → str) (now : N)
    (p : Article.t) :
  Article.slug p = None →
  (120 < length (slugify unicode_lower (Article.title p)))%nat →
  ∃ slug,
    article_data unicode_lower now p !! "slug" = Some (VStr slug)
    ∧ slug = take 120 (slugify unicode_lower (Article.title p))
    ∧ length slug = 120%nat
    ∧ (last slug = Some hyphen
       ↔ slugify unicode_lower (Article.title p) !! 119%nat = Some hyphen).
Proof.
  intros Hp Hlen.
  pose proof (article_data_slug unicode_lower now p) as Hslug. rewrite Hp in Hslug.
  destruct (last_take_120 _ Hlen) as [Hlen' Hlast].
  exists (take 120 (slugify unicode_lower (Article.title p))).
  split_and!; [done | done | done | exact Hlast].
Qed.

Lemma truncated_slug_witness :
  ∃ slug,
    article_data no_unicode_lower 0 (article_request long_title None None) !! "slug"
    = Some (VStr slug)
    ∧ slug = take 120 (slugify no_unicode_lower long_title)
    ∧ length slug = 120%nat
    ∧ (last slug = Some hyphen
       ↔ slugify no_unicode_lower long_title !! 119%nat = Some hyphen).
Proof.
  apply (truncated_slug no_unicode_lower 0 (article_request long_title None None)).
  - reflexivity.
  - vm_compute. lia.
Defined.

(** C4, as the specification has it, fails: the title of 130 characters
    [long_title] is normalised to 130 characters, and the slug the handler
    sets for an article with that title and no slug, the first 120 of them,
    ends with a hyphen. *)
Lemma truncated_slug_trailing_hyphen :
  Article.slug (article_request long_title None None) = None
  ∧ length long_title = 130%nat
  ∧ (120 < length (slugify no_unicode_lower long_title))%nat
  ∧ ∃ slug,
      article_data no_unicode_lower 0 (article_request long_title None None) !! "slug"
      = Some (VStr slug)
      ∧ slug = take 120 (slugify no_unicode_lower long_title)
      ∧ last slug = Some hyphen.
Proof.
  split; [reflexivity|]. split; [reflexivity|]. split; [vm_compute; lia|].
  exists (take 120 (slugify no_unicode_lower long_title)).
  split; [apply article_data_slug|]. split; [reflexivity|].
  vm_compute. reflexivity.
Qed.

(** ** Seeding *)

(** C10: with a database, [seed_sample] returns, and a second run on the
    database the first one left creates nothing: it reports zero created
    articles and leaves every collection as it was. *)
Theorem seed_sample_idempotent (unicode_lower : str → N → str → str)
    (now now' : nat → N) (d : Database) :
  ∃ created d',
    seed_sample unicode_lower now (Some d) = (Return created, Some d')
    ∧ seed_sample unicode_lower now' (Some d') = (Return 0, Some d').
Proof.
  destruct (seed_categories_run categories categories_have_slug d)
    as (d1 & Hrun1 & _ & _ & Hall1).
  destruct (seed_samples_run unicode_lower now samples samples_have_title 0%nat 0 d1)
    as (r & d2 & Hrun2 & Hc2 & _ & Hall2).
  exists r, d2. unfold seed_sample, bind. split.
  - by rewrite Hrun1.
  - rewrite seed_categories_noop.
    + apply seed_samples_noop.
      apply Forall_forall. intros s Hs.
      destruct (proj1 (Forall_forall _ _) samples_have_title s Hs) as [t Ht].
      exists t. split; [done|].
      by apply (proj1 (Forall_forall _ _) Hall2 s Hs).
    + apply Forall_forall. intros c Hc.
      destruct (proj1 (Forall_forall _ _) categories_have_slug c Hc) as [v Hv].
      exists v. split; [done|]. rewrite Hc2.
      by apply (proj1 (Forall_forall _ _) Hall1 c Hc).
Qed.

(** * Further properties *)

(** ** What [slugify] keeps and what it drops *)

Lemma is_alnum_slug_char c : is_alnum c = true → slug_char c = true ∧ c ≠ hyphen.
Proof. unfold is_alnum. bool_arith. Qed.

Lemma slug_char_alnum c : slug_char c = true → c ≠ hyphen → is_alnum c = true.
Proof. unfold is_alnum. bool_arith. Qed.

Lemma is_alnum_kept c : is_alnum c = true → kept c = true ∧ is_sep c = false.
Proof. unfold is_alnum. bool_arith. Qed.

Lemma filter_none {A} (q : A → bool) (l : list A) :
  Forall (λ c, q c = false) l → List.filter q l = [].
Proof.
  induction 1 as [|c r Hc _ IH]; simpl; [done|]. by rewrite Hc.
Qed.

Section StripKeeps.

Variables p q : N → bool.
Hypothesis stripped_not_kept : ∀ c, p c = true → q c = false.

Lemma filter_stripped l : Forall (λ c, p c = true) l → List.filter q l = [].
Proof.
  intros H. apply filter_none. eapply Forall_impl; [exact H|].
  exact stripped_not_kept.
Qed.

(** [strip] removes nothing of what [q] selects. *)
Lemma filter_strip s : List.filter q (strip p s) = List.filter q s.
Proof.
  unfold strip.
  destruct (lstrip_split p s) as (l1 & H1 & Hp1).
  destruct (rstrip_split p (lstrip p s)) as (l2 & H2 & Hp2).
  rewrite H1 at 2. rewrite H2 at 2.
  rewrite !List.filter_app, (filter_stripped l1), (filter_stripped l2) by done.
  by rewrite app_nil_r.
Qed.

End StripKeeps.

Lemma filter_re_sub_char s :
  List.filter is_alnum (re_sub_char (λ c, negb (kept c)) [] s) = List.filter is_alnum s.
Proof.
  induction s as [|c r IH]; simpl; [done|].
  destruct (kept c) eqn:Hk; simpl.
  - by rewrite IH.
  - destruct (is_alnum c) eqn:Ha; [|done].
    apply is_alnum_kept in Ha as [Ha _]. congruence.
Qed.

Lemma filter_re_sub_plus s : ∀ in_run,
  List.filter is_alnum (re_sub_plus_from is_sep [hyphen] in_run s)
  = List.filter is_alnum s.
Proof.
  induction s as [|c r IH]; intros in_run; simpl; [done|].
  destruct (is_sep c) eqn:Hsep.
  - assert (is_alnum c = false) as ->.
    { destruct (is_alnum c) eqn:Ha; [|done].
      apply is_alnum_kept in Ha as [_ Ha]. congruence. }
    rewrite List.filter_app, IH. by destruct in_run.
  - simpl. by rewrite IH.
Qed.

Lemma length_strip p s : (length (strip p s) ≤ length s)%nat.
Proof.
  destruct (strip_split p s) as (l1 & l2 & Hs).
  rewrite Hs at 2. rewrite !length_app. lia.
Qed.

Lemma length_re_sub_char cls s : (length (re_sub_char cls [] s) ≤ length s)%nat.
Proof.
  induction s as [|c r IH]; simpl; [done|].
  destruct (cls c); simpl; lia.
Qed.

Lemma length_re_sub_plus cls c s : ∀ in_run,
  (length (re_sub_plus_from cls [c] in_run s) ≤ length s)%nat.
Proof.
  induction s as [|a r IH]; intros in_run; simpl; [done|].
  destruct (cls a).
  - rewrite length_app. specialize (IH true). destruct in_run; simpl; lia.
  - simpl. specialize (IH false). lia.
Qed.

Section Keeps.

Variable unicode_lower : str → N → str → str.

Lemma filter_slugify text :
  List.filter is_alnum (slugify unicode_lower text)
  = List.filter is_alnum (lower unicode_lower text).
Proof.
  unfold slugify, re_sub_plus.
  rewrite (filter_strip is_hyphen is_alnum).
  - rewrite filter_re_sub_plus, filter_re_sub_char.
    apply filter_strip. unfold is_alnum. intros c. bool_arith.
  - unfold is_alnum. intros c. bool_arith.
Qed.

Lemma length_slugify text :
  (length (slugify unicode_lower text) ≤ length (lower unicode_lower text))%nat.
Proof.
  unfold slugify, re_sub_plus.
  etrans; [apply length_strip|].
  etrans; [apply length_re_sub_plus|].
  etrans; [apply length_re_sub_char|].
  apply length_strip.
Qed.

Lemma slug_head_alnum s c :
  is_slug s → head s = Some c → is_alnum c = true.
Proof.
  intros (HF & Hh & _ & _) Hc.
  apply slug_char_alnum.
  - apply head_Some_elem_of in Hc. by apply (proj1 (Forall_forall _ _) HF).
  - intros ->. by apply Hh.
Qed.

(** Without letters and digits in the lowered text the slug is empty. *)
Lemma slugify_no_alnum text :
  Forall (λ c, is_alnum c = false) (lower unicode_lower text) →
  slugify unicode_lower text = [].
Proof.
  intros Hall.
  destruct (slugify unicode_lower text) as [|c r] eqn:Hs; [done|].
  assert (is_alnum c = true) as Ha.
  { apply (slug_head_alnum (c :: r)); [|done].
    rewrite <- Hs. apply slugify_is_slug. }
  pose proof (filter_slugify text) as Hf.
  rewrite Hs, (filter_none _ _ Hall) in Hf. simpl in Hf. by rewrite Ha in Hf.
Qed.

End Keeps.

(** X1: the texts [slugify] leaves as they are are exactly the slugs:
    strings of lowercase letters, digits and single hyphens that neither
    start nor end with a hyphen. *)
Theorem slugify_fixed_points (unicode_lower : str → N → str → str) (s : str) :
  slugify unicode_lower s = s ↔ is_slug s.
Proof.
  split.
  - intros <-. apply slugify_is_slug.
  - apply slugify_slug.
Qed.

(** X2: [slugify] neither drops nor reorders letters and digits: the
    letters and digits of the slug are those of the lowered text, in the
    same order. *)
Theorem slugify_keeps_alnum (unicode_lower : str → N → str → str) (text : str) :
  List.filter is_alnum (slugify unicode_lower text)
  = List.filter is_alnum (lower unicode_lower text).
Proof. apply filter_slugify. Qed.

(** X3: the slug is empty exactly when the lowered text holds no lowercase
    ASCII letter and no digit. *)
Theorem slugify_empty_iff (unicode_lower : str → N → str → str) (text : str) :
  slugify unicode_lower text = []
  ↔ Forall (λ c, is_alnum c = false) (lower unicode_lower text).
Proof.
  split.
  - intros Hs.
    pose proof (filter_slugify unicode_lower text) as Hf. rewrite Hs in Hf.
    apply Forall_forall. intros c Hc.
    destruct (is_alnum c) eqn:Ha; [|done].
    assert (In c (List.filter is_alnum (lower unicode_lower text))) as Hin.
    { apply filter_In. split; [by apply list_elem_of_In | done]. }
    rewrite <- Hf in Hin. destruct Hin.
  - apply slugify_no_alnum.
Qed.

(** X4: a slug is never longer than the lowered text, so never longer than
    an ASCII text it is made from. *)
Theorem slugify_length (unicode_lower : str → N → str → str) (text : str) :
  (length (slugify unicode_lower text) ≤ length (lower unicode_lower text))%nat
  ∧ (Forall (λ c, c < 128) text →
     (length (slugify unicode_lower text) ≤ length text)%nat).
Proof.
  split; [apply length_slugify|].
  intros Hascii. etrans; [apply length_slugify|].
  unfold lower. by rewrite lower_from_ascii, length_map.
Qed.

Lemma slugify_length_witness :
  (length (slugify no_unicode_lower (lit "  Hello---World  "))
   ≤ length (lit "  Hello---World  "))%nat.
Proof.
  apply (proj2 (slugify_length no_unicode_lower (lit "  Hello---World  "))).
  vm_compute. repeat constructor.
Defined.

(** X5: ASCII texts that differ only in the case of their letters have the
    same slug. *)
Theorem slugify_ignores_ascii_case (unicode_lower : str → N → str → str)
    (t1 t2 : str) :
  Forall (λ c, c < 128) t1 →
  Forall (λ c, c < 128) t2 →
  map (λ c, if is_ascii_upper c then c + 32 else c) t1
  = map (λ c, if is_ascii_upper c then c + 32 else c) t2 →
  slugify unicode_lower t1 = slugify unicode_lower t2.
Proof.
  intros H1 H2 Heq. unfold slugify, lower.
  by rewrite !lower_from_ascii, Heq.
Qed.

Lemma slugify_ignores_ascii_case_witness :
  slugify no_unicode_lower (lit "Technology") = slugify no_unicode_lower (lit "tECHNOlogy").
Proof.
  apply (slugify_ignores_ascii_case no_unicode_lower (lit "Technology") (lit "tECHNOlogy")).
  - vm_compute. repeat constructor.
  - vm_compute. repeat constructor.
  - reflexivity.
Defined.

(** ** Creation: what it keeps *)

Lemma slug_not_among (c : list doc) v :
  v ∉ omap (λ x : doc, x !! "slug") c ↔ slug_taken c v = false.
Proof.
  rewrite slug_taken_false, list_elem_of_omap. split.
  - intros H x Hin Hx. apply H. by exists x.
  - intros H (x & Hin & Hx). by apply (H x).
Qed.

(** Appending a document whose slug is free keeps the slugs unique. *)
Lemma unique_slugs_snoc (c : list doc) (x : doc) :
  unique_slugs c →
  (∀ v, x !! "slug" = Some v → slug_taken c v = false) →
  unique_slugs (c ++ [x]).
Proof.
  unfold unique_slugs. intros Hc Hx.
  rewrite omap_app. apply NoDup_app. split; [done|]. split.
  - intros v Hv Hv'. simpl in Hv'.
    destruct (x !! "slug") as [w|] eqn:Hw; [|by apply elem_of_nil in Hv'].
    apply list_elem_of_singleton in Hv' as ->.
    by apply (slug_not_among c w); [apply Hx|].
  - simpl. destruct (x !! "slug"); [apply NoDup_singleton | apply NoDup_nil_2].
Qed.

(** What one insertion into collection [name] does to the collections. *)
Lemma insert_keeps_unique (d : Database) name data other v :
  data !! "slug" = Some v →
  slug_taken (collection d name) v = false →
  unique_slugs (collection d other) →
  unique_slugs
    (collection (<[name := collection d name ++ [stored (collection d name) data]]> d) other).
Proof.
  intros Hv Hfree Hu.
  destruct (decide (name = other)) as [<-|Hne].
  - rewrite collection_insert_eq. apply unique_slugs_snoc; [done|].
    intros w Hw. rewrite stored_lookup in Hw by done. congruence.
  - by rewrite collection_insert_ne.
Qed.

(** X7: a creation only ever appends: whatever the outcome, the documents
    of every collection are still there, in the same order and unchanged,
    at most one document is added to the collection of the handler, and no
    other collection changes. *)
Theorem create_only_appends (unicode_lower : str → N → str → str) (now : N)
    (d : Database) :
  (∀ p, ∃ o d',
      create_category unicode_lower p (Some d) = (o, Some d')
      ∧ collection d "category" `prefix_of` collection d' "category"
      ∧ (length (collection d' "category") ≤ S (length (collection d "category")))%nat
      ∧ ∀ name, name ≠ "category" → collection d' name = collection d name)
  ∧ (∀ p, ∃ o d',
      create_article unicode_lower now p (Some d) = (o, Some d')
      ∧ collection d "article" `prefix_of` collection d' "article"
      ∧ (length (collection d' "article") ≤ S (length (collection d "article")))%nat
      ∧ ∀ name, name ≠ "article" → collection d' name = collection d name).
Proof.
  split; intros p.
  - exists (Raise (Exception "NotImplementedError")), d.
    rewrite create_category_run. split_and!; [done | done | lia | done].
  - exists (Raise (Exception "NotImplementedError")), d.
    rewrite create_article_run. split_and!; [done | done | lia | done].
Qed.

Section Again.

Variable unicode_lower : str → N → str → str.

(** The candidate of a category without a slug whose name has no letter
    and no digit is the empty string. *)
Lemma category_data_degenerate p :
  Category.slug p = None →
  Forall (λ c, is_alnum c = false) (lower unicode_lower (Category.name p)) →
  category_data unicode_lower p !! "slug" = Some (VStr []).
Proof.
  intros Hp Hall. rewrite category_data_slug, Hp.
  by rewrite slugify_no_alnum.
Qed.

Lemma article_data_degenerate now p :
  Article.slug p = None →
  Forall (λ c, is_alnum c = false) (lower unicode_lower (Article.title p)) →
  article_data unicode_lower now p !! "slug" = Some (VStr []).
Proof.
  intros Hp Hall. rewrite article_data_slug, Hp.
  by rewrite slugify_no_alnum.
Qed.

End Again.

(** X9: the empty slug is not replaced or refused before the lookup.  For a
    category or an article without a slug whose name or title has no
    letter and no digit, the slug the handler sets is the empty string. *)
Theorem degenerate_name_empty_slug (unicode_lower : str → N → str → str) (now : N) :
  (∀ p,
      Category.slug p = None →
      Forall (λ c, is_alnum c = false) (lower unicode_lower (Category.name p)) →
      category_data unicode_lower p !! "slug" = Some (VStr []))
  ∧ (∀ p,
      Article.slug p = None →
      Forall (λ c, is_alnum c = false) (lower unicode_lower (Article.title p)) →
      article_data unicode_lower now p !! "slug" = Some (VStr [])).
Proof.
  split; intros p Hp Hall.
  - by apply category_data_degenerate.
  - by apply article_data_degenerate.
Qed.

Lemma degenerate_name_empty_slug_witness :
  category_data no_unicode_lower (category_request "?? !!" None) !! "slug"
  = Some (VStr []).
Proof.
  apply (proj1 (degenerate_name_empty_slug no_unicode_lower 0)
           (category_request "?? !!" None)).
  - reflexivity.
  - vm_compute. repeat constructor.
Defined.

(** ** The slug of an article *)

(** X10: the slug given to an article without one keeps the shape of a slug
    except at its end: it is a prefix of the normalised title of at most
    120 characters, holds slug characters only, does not start with a hyphen
    and has no two hyphens in a row; when the normalised title has at most
    120 characters it is the whole of it. *)
Theorem article_slug_shape (unicode_lower : str → N → str → str) (now : N)
    (p : Article.t) :
  Article.slug p = None →
  ∃ s,
    article_data unicode_lower now p !! "slug" = Some (VStr s)
    ∧ s `prefix_of` slugify unicode_lower (Article.title p)
    ∧ (length s ≤ 120)%nat
    ∧ Forall (λ c, slug_char c = true) s
    ∧ head s ≠ Some hyphen
    ∧ (∀ i : nat, ¬ (s !! i = Some hyphen ∧ s !! S i = Some hyphen))
    ∧ ((length (slugify unicode_lower (Article.title p)) ≤ 120)%nat →
       s = slugify unicode_lower (Article.title p) ∧ is_slug s).
Proof.
  intros Hp.
  pose proof (article_data_slug unicode_lower now p) as Hslug. rewrite Hp in Hslug.
  destruct (slugify_is_slug unicode_lower (Article.title p)) as (HF & Hh & Hl & HP).
  set (t := slugify unicode_lower (Article.title p)) in *.
  exists (take 120 t). split_and!.
  - done.
  - exists (drop 120 t). by rewrite take_drop.
  - rewrite length_take. lia.
  - by apply Forall_take.
  - by destruct t.
  - apply no_hyphen_pair_lookup.
    apply (no_hyphen_pair_segment [] (take 120 t) (drop 120 t)).
    rewrite take_drop. by apply no_hyphen_pair_lookup.
  - intros Hlen. rewrite take_ge by done. split; [done|].
    apply slugify_is_slug.
Qed.

Lemma article_slug_shape_witness :
  ∃ s,
    article_data no_unicode_lower 0 (article_request long_title None None) !! "slug"
    = Some (VStr s)
    ∧ s `prefix_of` slugify no_unicode_lower long_title
    ∧ (length s ≤ 120)%nat
    ∧ Forall (λ c, slug_char c = true) s
    ∧ head s ≠ Some hyphen
    ∧ (∀ i : nat, ¬ (s !! i = Some hyphen ∧ s !! S i = Some hyphen))
    ∧ ((length (slugify no_unicode_lower long_title) ≤ 120)%nat →
       s = slugify no_unicode_lower long_title ∧ is_slug s).
Proof.
  apply (article_slug_shape no_unicode_lower 0 (article_request long_title None None)).
  reflexivity.
Defined.

(** ** Reading articles *)

Section Reading.

Variable str_other : value → str.
Variable ObjectId : str → option N.

(** With a database the read handlers stop at the truth test of the
    handle; without one they look nothing up and answer "not found". *)
Lemma get_article_run slug d :
  get_article str_other slug (Some d)
  = (Raise (Exception "NotImplementedError"), Some d).
Proof. reflexivity. Qed.

Lemma get_article_unavailable slug :
  get_article str_other slug None
  = (Raise (HTTPException 404 "Article not found"), None).
Proof. reflexivity. Qed.

Lemma get_article_by_id_invalid item_id db :
  ObjectId item_id = None →
  get_article_by_id str_other ObjectId item_id db
  = (Raise (HTTPException 400 "Invalid id"), db).
Proof. intros H. unfold get_article_by_id. by rewrite H. Qed.

Lemma get_article_by_id_run item_id oid d :
  ObjectId item_id = Some oid →
  get_article_by_id str_other ObjectId item_id (Some d)
  = (Raise (Exception "NotImplementedError"), Some d).
Proof. intros H. unfold get_article_by_id. by rewrite H. Qed.

Lemma get_article_by_id_unavailable item_id oid :
  ObjectId item_id = Some oid →
  get_article_by_id str_other ObjectId item_id None
  = (Raise (HTTPException 404 "Article not found"), None).
Proof. intros H. unfold get_article_by_id. by rewrite H. Qed.

End Reading.

(** X11: [get_article] answers "not found" exactly when there is no
    database; with a database it raises [NotImplementedError] at the truth
    test of the handle (line 140), whether or not an article has the
    slug. *)
Theorem get_article_not_found (str_other : value → str) (slug : str)
    (db : option Database) :
  (get_article str_other slug db = (Raise (HTTPException 404 "Article not found"), db)
   ↔ db = None)
  ∧ (get_article str_other slug db = (Raise (Exception "NotImplementedError"), db)
     ↔ db ≠ None).
Proof.
  destruct db as [d|].
  - rewrite get_article_run. split; split; done.
  - rewrite get_article_unavailable. split; split; done.
Qed.

(** X12: the read handlers never change the database, whatever they
    answer. *)
Theorem read_handlers_leave_store (str_other : value → str)
    (ObjectId : str → option N) (db : option Database) :
  (∀ slug, (get_article str_other slug db).2 = db)
  ∧ (∀ item_id, (get_article_by_id str_other ObjectId item_id db).2 = db).
Proof.
  split.
  - intros slug. destruct db as [d|].
    + by rewrite get_article_run.
    + by rewrite get_article_unavailable.
  - intros item_id. destruct (ObjectId item_id) as [oid|] eqn:Hoid.
    + destruct db as [d|].
      * by rewrite (get_article_by_id_run _ _ _ oid).
      * by rewrite (get_article_by_id_unavailable _ _ _ oid).
    + by rewrite get_article_by_id_invalid.
Qed.

(** X13: the outcomes of [get_article_by_id].  An identifier [ObjectId]
    refuses is answered by "Invalid id", with or without a database; an
    identifier it accepts is answered by "not found" when there is no
    database, and with a database the handler raises [NotImplementedError]
    at the truth test of the handle (line 153).  No path returns an
    article. *)
Theorem get_article_by_id_outcomes (str_other : value → str)
    (ObjectId : str → option N) (item_id : str) (db : option Database) :
  get_article_by_id str_other ObjectId item_id db
  = match ObjectId item_id, db with
    | None, _ => (Raise (HTTPException 400 "Invalid id"), db)
    | Some _, None => (Raise (HTTPException 404 "Article not found"), db)
    | Some _, Some _ => (Raise (Exception "NotImplementedError"), db)
    end.
Proof.
  destruct (ObjectId item_id) as [oid|] eqn:Hoid.
  - destruct db as [d|].
    + by apply get_article_by_id_run with oid.
    + by apply get_article_by_id_unavailable with oid.
  - by apply get_article_by_id_invalid.
Qed.

(** ** Seeding: what it adds *)

(** One pass over the categories appends at most one document for each
    and touches no other collection. *)
Lemma seed_categories_grow cs :
  Forall (λ c : doc, is_Some (c !! "slug")) cs →
  ∀ d, ∃ d' extra,
    seed_categories cs (Some d) = (Return tt, Some d')
    ∧ collection d' "category" = collection d "category" ++ extra
    ∧ (length extra ≤ length cs)%nat
    ∧ (∀ name, name ≠ "category" → collection d' name = collection d name)
    ∧ (unique_slugs (collection d "category") →
       unique_slugs (collection d' "category")).
Proof.
  induction 1 as [|c cs [v Hv] _ IH]; intros d.
  - exists d, []. rewrite app_nil_r. by repeat split.
  - rewrite (seed_categories_cons c cs v d Hv).
    destruct (slug_taken (collection d "category") v) eqn:Htaken.
    + destruct (IH d) as (d' & extra & Hrun & Hc & Hlen & Hother & Hu).
      exists d', extra. repeat split; [done | done | simpl; lia | done | done].
    + set (x := stored _ _). set (d1 := <["category" := _]> d).
      destruct (IH d1) as (d' & extra & Hrun & Hc & Hlen & Hother & Hu).
      exists d', (x :: extra). split_and!.
      * done.
      * rewrite Hc. unfold d1. rewrite collection_insert_eq.
        by rewrite <- app_assoc.
      * simpl. lia.
      * intros name Hne. rewrite Hother by done. by apply collection_insert_ne.
      * intros Hd. apply Hu. unfold d1, x.
        apply (insert_keeps_unique d "category" _ "category" v); [|done|done].
        by rewrite lookup_insert_ne.
Qed.

Section SeedGrow.

Variable unicode_lower : str → N → str → str.

(** One pass over the samples appends one article for each slug that was
    free, counts them and touches no other collection. *)
Lemma seed_samples_grow now ss :
  Forall (λ s : doc, ∃ t, s !! "title" = Some (VStr t)) ss →
  ∀ i n d, ∃ created d' extra,
    seed_samples unicode_lower now i ss n (Some d) = (Return created, Some d')
    ∧ collection d' "article" = collection d "article" ++ extra
    ∧ created = n + N.of_nat (length extra)
    ∧ (length extra ≤ length ss)%nat
    ∧ (∀ name, name ≠ "article" → collection d' name = collection d name)
    ∧ (unique_slugs (collection d "article") →
       unique_slugs (collection d' "article")).
Proof.
  induction 1 as [|s ss [t Ht] _ IH]; intros i n d.
  - exists n, d, []. rewrite app_nil_r. simpl. repeat split; [lia | done | done].
  - rewrite (seed_samples_cons unicode_lower now i s ss n t d Ht).
    destruct (slug_taken (collection d "article") _) eqn:Htaken.
    + destruct (IH (S i) n d) as (r & d' & extra & Hrun & Hc & Hr & Hlen & Hother & Hu).
      exists r, d', extra. repeat split; [done | done | done | simpl; lia | done | done].
    + set (x := stored _ _). set (d1 := <["article" := _]> d).
      destruct (IH (S i) (n + 1) d1)
        as (r & d' & extra & Hrun & Hc & Hr & Hlen & Hother & Hu).
      exists r, d', (x :: extra). split_and!.
      * done.
      * rewrite Hc. unfold d1. rewrite collection_insert_eq.
        by rewrite <- app_assoc.
      * rewrite Hr. simpl length. lia.
      * simpl. lia.
      * intros name Hne. rewrite Hother by done. by apply collection_insert_ne.
      * intros Hd. apply Hu. unfold d1, x.
        eapply (insert_keeps_unique d "article" _ "article"); [|exact Htaken|done].
        by map_lookup.
Qed.

(** The whole of [seed_sample] on a connected database. *)
Lemma seed_sample_grow now d :
  ∃ created d' new_categories new_articles,
    seed_sample unicode_lower now (Some d) = (Return created, Some d')
    ∧ collection d' "category" = collection d "category" ++ new_categories
    ∧ collection d' "article" = collection d "article" ++ new_articles
    ∧ created = N.of_nat (length new_articles)
    ∧ (length new_categories ≤ 5)%nat
    ∧ (length new_articles ≤ 3)%nat
    ∧ (∀ name, name ≠ "category" → name ≠ "article" →
               collection d' name = collection d name)
    ∧ (∀ name, unique_slugs (collection d name) → unique_slugs (collection d' name)).
Proof.
  destruct (seed_categories_grow categories categories_have_slug d)
    as (d1 & cats & Hrun1 & Hc1 & Hlen1 & Hother1 & Hu1).
  destruct (seed_samples_grow now samples samples_have_title 0%nat 0 d1)
    as (r & d2 & arts & Hrun2 & Hc2 & Hr & Hlen2 & Hother2 & Hu2).
  exists r, d2, cats, arts. split_and!.
  - unfold seed_sample, bind. by rewrite Hrun1.
  - by rewrite Hother2, Hc1.
  - by rewrite Hc2, Hother1.
  - by rewrite Hr.
  - done.
  - done.
  - intros name H1 H2. by rewrite Hother2, Hother1.
  - intros name Hu.
    destruct (decide (name = "article")) as [->|Ha].
    + apply Hu2. by rewrite Hother1.
    + rewrite Hother2 by done.
      destruct (decide (name = "category")) as [->|Hc]; [by apply Hu1|].
      by rewrite Hother1.
Qed.

End SeedGrow.

(** X16: on a connected database [seed_sample] only appends: it adds at
    most five categories and at most three articles after the documents
    that were there, changes no other collection, and the number it
    reports as [created] is the number of articles it added. *)
Theorem seed_sample_appends (unicode_lower : str → N → str → str)
    (now : nat → N) (d : Database) :
  ∃ created d' new_categories new_articles,
    seed_sample unicode_lower now (Some d) = (Return created, Some d')
    ∧ collection d' "category" = collection d "category" ++ new_categories
    ∧ collection d' "article" = collection d "article" ++ new_articles
    ∧ created = N.of_nat (length new_articles)
    ∧ (length new_categories ≤ 5)%nat
    ∧ (length new_articles ≤ 3)%nat
    ∧ (∀ name, name ≠ "category" → name ≠ "article" →
               collection d' name = collection d name).
Proof.
  destruct (seed_sample_grow unicode_lower now d)
    as (r & d' & cats & arts & H1 & H2 & H3 & H4 & H5 & H6 & H7 & _).
  by exists r, d', cats, arts.
Qed.



(** X18: the seeded articles are stored under their slugs: after
    [seed_sample] ran on a connected database, the slug of every sample
    title is the slug of an article of the collection, and [get_article]
    does not answer "not found" for it. *)
Theorem seed_then_get_article (unicode_lower : str → N → str → str)
    (str_other : value → str) (now : nat → N) (d : Database) :
  ∃ created d',
    seed_sample unicode_lower now (Some d) = (Return created, Some d')
    ∧ ∀ s t, s ∈ samples → s !! "title" = Some (VStr t) →
        (∃ x, x ∈ collection d' "article"
              ∧ x !! "slug" = Some (VStr (take 120 (slugify unicode_lower t))))
        ∧ get_article str_other (take 120 (slugify unicode_lower t)) (Some d')
          ≠ (Raise (HTTPException 404 "Article not found"), Some d').
Proof.
  destruct (seed_categories_run categories categories_have_slug d)
    as (d1 & Hrun1 & _ & _ & _).
  destruct (seed_samples_run unicode_lower now samples samples_have_title 0%nat 0 d1)
    as (r & d2 & Hrun2 & _ & _ & Hall).
  exists r, d2. split.
  - unfold seed_sample, bind. by rewrite Hrun1.
  - intros s t Hs Ht. split; [|by rewrite get_article_run].
    apply (proj1 (Forall_forall _ _) Hall s Hs) in Ht.
    by apply slug_taken_iff in Ht.
Qed.

(** ** Sorting *)

Lemma str_lt_asym s : ∀ t, str_lt s t = true → str_lt t s = false.
Proof.
  induction s as [|a s IH]; intros [|b t]; simpl; try done.
  destruct (N.ltb_spec a b), (N.ltb_spec b a), (N.eqb_spec a b), (N.eqb_spec b a);
    simpl; try lia; try done.
  apply IH.
Qed.

Lemma str_lt_trans_le s : ∀ t u,
  str_lt t s = false → str_lt u t = false → str_lt u s = false.
Proof.
  induction s as [|a s IH]; intros [|b t] [|c u]; simpl; try done.
  destruct (N.ltb_spec b a), (N.ltb_spec c b), (N.ltb_spec c a),
    (N.eqb_spec b a), (N.eqb_spec c b), (N.eqb_spec c a);
    simpl; try lia; try done.
  apply IH.
Qed.

Lemma StronglySorted_lookup {A} (R : A → A → Prop) (l : list A) :
  StronglySorted R l →
  ∀ (i j : nat) x y, (i < j)%nat → l !! i = Some x → l !! j = Some y → R x y.
Proof.
  induction 1 as [|a l _ IH Hall]; intros i j x y Hij Hx Hy; [done|].
  destruct j as [|j]; [lia|]. simpl in Hy.
  destruct i as [|i]; simpl in Hx.
  - injection Hx as <-.
    apply (proj1 (Forall_forall _ _) Hall). by eapply list_elem_of_lookup_2.
  - apply (IH i j); [lia | done | done].
Qed.

Section Insort.

(** [first y x] tells whether [y] has to stay before [x]; [comparable]
    holds of documents whose keys are of one kind. *)
Variable first : doc → doc → option bool.
Variable comparable : doc → Prop.

Hypothesis first_defined :
  ∀ a b, comparable a → comparable b → is_Some (first a b).
Hypothesis first_asym :
  ∀ a b, comparable a → comparable b → first a b = Some true → first b a = Some false.
Hypothesis first_trans :
  ∀ a b c, comparable a → comparable b → comparable c →
    first b a = Some false → first c b = Some false → first c a = Some false.

Lemma insort_perm x l : ∀ l', insort first x l = Some l' → l' ≡ₚ x :: l.
Proof.
  induction l as [|y r IH]; simpl; intros l'.
  - by intros [= <-].
  - destruct (first y x) as [[|]|]; [|by intros [= <-]|done].
    destruct (insort first x r) as [l1|]; [|done].
    intros [= <-]. rewrite (IH l1 eq_refl). apply Permutation_swap.
Qed.

Lemma insort_sorted x l :
  comparable x → Forall comparable l → StronglySorted (λ a b, first b a = Some false) l →
  ∃ l', insort first x l = Some l' ∧ StronglySorted (λ a b, first b a = Some false) l'.
Proof.
  intros Hx Hall Hsorted.
  induction Hsorted as [|y r Hr IH Hy]; simpl.
  - eexists. split; [done|]. repeat constructor.
  - apply Forall_cons in Hall as [Hcy Hall].
    destruct (first_defined y x Hcy Hx) as [[|] Hyx]; rewrite Hyx.
    + destruct (IH Hall) as (l1 & Hl1 & Hs1). rewrite Hl1. simpl.
      eexists. split; [done|]. constructor; [done|].
      apply insort_perm in Hl1. rewrite Hl1. constructor; [|done].
      by apply first_asym.
    + eexists. split; [done|]. constructor; [by constructor|].
      constructor; [done|].
      apply Forall_forall. intros z Hz.
      apply (first_trans x y z); [done | done | | done |].
      * by apply (proj1 (Forall_forall _ _) Hall).
      * by apply (proj1 (Forall_forall _ _) Hy).
Qed.

End Insort.

(** The sort succeeds on documents whose keys are of one kind, and gives
    them back rearranged, each key before the keys that are not before
    it. *)
Lemma py_sorted_spec key reverse (comparable : doc → Prop) :
  (∀ a b, comparable a → comparable b → is_Some (precedes key reverse a b)) →
  (∀ a b, comparable a → comparable b →
     precedes key reverse a b = Some true → precedes key reverse b a = Some false) →
  (∀ a b c, comparable a → comparable b → comparable c →
     precedes key reverse b a = Some false → precedes key reverse c b = Some false →
     precedes key reverse c a = Some false) →
  ∀ items, Forall comparable items →
  ∃ l, py_sorted key reverse items = Some l
    ∧ l ≡ₚ items
    ∧ StronglySorted (λ a b, precedes key reverse b a = Some false) l.
Proof.
  intros Hdef Hasym Htrans items.
  induction 1 as [|x r Hx Hall IH]; simpl.
  - exists []. repeat split; constructor.
  - destruct IH as (l & -> & Hperm & Hsorted).
    destruct (insort_sorted _ comparable Hdef Hasym Htrans x l) as (l' & Hl' & Hs');
      [done | by rewrite Hperm | done |].
    exists l'. split; [done|]. split; [|done].
    apply insort_perm in Hl'. by rewrite Hl', Hperm.
Qed.

(** Names that are strings, ascending. *)
Lemma sorted_by_name items :
  Forall (λ x, ∃ s, name_key x = VStr s) items →
  ∃ l, py_sorted name_key false items = Some l
    ∧ l ≡ₚ items
    ∧ StronglySorted (λ a b, value_lt (name_key b) (name_key a) = Some false) l.
Proof.
  apply (py_sorted_spec name_key false (λ x, ∃ s, name_key x = VStr s));
    unfold precedes.
  - intros a b [s ->] [t ->]. by eexists.
  - intros a b [s ->] [t ->]. simpl. intros [= H]. by rewrite (str_lt_asym _ _ H).
  - intros a b c [s ->] [t ->] [u ->]. simpl. intros [= H1] [= H2].
    by rewrite (str_lt_trans_le _ _ _ H1 H2).
Qed.

(** Dates that are datetimes, descending. *)
Lemma sorted_by_date items :
  Forall (λ x, ∃ t, date_key x = VDatetime t) items →
  ∃ l, py_sorted date_key true items = Some l
    ∧ l ≡ₚ items
    ∧ StronglySorted (λ a b, value_lt (date_key a) (date_key b) = Some false) l.
Proof.
  apply (py_sorted_spec date_key true (λ x, ∃ t, date_key x = VDatetime t));
    unfold precedes.
  - intros a b [s ->] [t ->]. by eexists.
  - intros a b [s ->] [t ->]. simpl. intros [= H]. f_equal.
    apply N.ltb_lt in H. apply N.ltb_ge. lia.
  - intros a b c [s ->] [t ->] [u ->]. simpl. intros [= H1] [= H2]. f_equal.
    apply N.ltb_ge in H1, H2. apply N.ltb_ge. lia.
Qed.

(** ** Listing *)

Section Listing.

Variable str_other : value → str.
Variable get_documents : string → list condition → option N → M (list doc).

Lemma article_card_lookup x k :
  k ≠ "_id" → k ≠ "content" → article_card str_other x !! k = x !! k.
Proof.
  intros H1 H2. unfold article_card, with_str_id. cbn zeta.
  destruct (truthy _); by rewrite ?(lookup_insert_ne _ "content"), lookup_insert_ne.
Qed.

(** With a database the list handlers stop at the truth test of the
    handle, before [get_documents] is called; without one they sort and
    return the empty list. *)
Lemma list_categories_run d :
  list_categories str_other get_documents (Some d)
  = (Raise (Exception "NotImplementedError"), Some d).
Proof. reflexivity. Qed.

Lemma list_articles_run category q limit d :
  list_articles str_other get_documents category q limit (Some d)
  = (Raise (Exception "NotImplementedError"), Some d).
Proof. reflexivity. Qed.



End Listing.


Lemma preview_short s : (length s ≤ 500)%nat → preview s = s.
Proof.
  intros H. unfold preview.
  rewrite take_ge by done.
  rewrite (proj2 (Nat.ltb_ge _ _)) by done. apply app_nil_r.
Qed.

Lemma preview_long s : (500 < length s)%nat → preview s = take 500 s ++ lit "...".
Proof. intros H. unfold preview. by rewrite (proj2 (Nat.ltb_lt _ _)). Qed.

Lemma article_card_content str_other x s :
  x !! "content" = Some (VStr s) →
  article_card str_other x !! "content" = Some (VStr (preview s)).
Proof.
  intros Hx. unfold article_card, with_str_id, dict_get. cbn zeta.
  rewrite (lookup_insert_ne _ "_id" "content") by done. rewrite Hx. cbn [truthy].
  destruct s as [|c s].
  - rewrite bool_decide_eq_true_2 by done. cbn [negb].
    rewrite lookup_insert_ne by done. by rewrite Hx.
  - rewrite bool_decide_eq_false_2 by done. cbn [negb py_str].
    by rewrite lookup_insert_eq.
Qed.

Lemma py_sorted_perm key reverse items : ∀ l,
  py_sorted key reverse items = Some l → l ≡ₚ items.
Proof.
  induction items as [|x r IH]; simpl; intros l.
  - by intros [= <-].
  - destruct (py_sorted key reverse r) as [l1|]; [|done].
    intros Hl. apply insort_perm in Hl. by rewrite Hl, (IH l1 eq_refl).
Qed.

Lemma value_lt_none_l v : value_lt VNone v = None.
Proof. done. Qed.

Lemma value_lt_none_r v : value_lt v VNone = None.
Proof. by destruct v. Qed.

Lemma precedes_none key reverse a b :
  key a = VNone ∨ key b = VNone → precedes key reverse a b = None.
Proof.
  unfold precedes.
  intros [->| ->]; destruct reverse;
    by rewrite ?value_lt_none_l, ?value_lt_none_r.
Qed.

(** Two documents or more, one of them with the key [None]: the sort
    raises. *)
Lemma py_sorted_none key reverse items :
  (2 ≤ length items)%nat →
  (∃ x, x ∈ items ∧ key x = VNone) →
  py_sorted key reverse items = None.
Proof.
  induction items as [|a r IH]; simpl; [lia|].
  intros Hlen (x & Hin & Hx).
  destruct (py_sorted key reverse r) as [l|] eqn:Hr; [|done].
  pose proof (py_sorted_perm _ _ _ _ Hr) as Hperm.
  destruct l as [|y l].
  - apply Permutation_nil_l in Hperm. subst r. simpl in Hlen. lia.
  - simpl. rewrite precedes_none; [done|].
    apply elem_of_cons in Hin as [->|Hin]; [by right|].
    destruct r as [|b [|c r]].
    + by apply elem_of_nil in Hin.
    + apply list_elem_of_singleton in Hin as ->.
      apply Permutation_length in Hperm as Hl. destruct l; [|done].
      apply Permutation_singleton_r in Hperm. injection Hperm as ->. by left.
    + assert (Some (y :: l) = @None (list doc)) as Hnone
        by (apply IH; [simpl; lia | by exists x]).
      done.
Qed.

(** X19: the sort [list_categories] applies (line 86).  On categories whose
    names are strings (a category without a name counts as [""]) it does
    not raise and gives the same categories back, rearranged so that no
    name comes after a greater one. *)
Theorem categories_sorted_by_name (items : list doc) (db : option Database) :
  Forall (λ x, ∃ s, name_key x = VStr s) items →
  ∃ l,
    sorted name_key false items db = (Return l, db)
    ∧ l ≡ₚ items
    ∧ ∀ (i j : nat) x y, (i < j)%nat → l !! i = Some x → l !! j = Some y →
        value_lt (name_key y) (name_key x) = Some false.
Proof.
  intros Hnames.
  destruct (sorted_by_name items Hnames) as (l & Hl & Hperm & Hsorted).
  exists l. split_and!.
  - unfold sorted. by rewrite Hl.
  - done.
  - intros i j x y Hij Hx Hy.
    by apply (StronglySorted_lookup _ _ Hsorted i j).
Qed.

(** World and Business come back as Business, World. *)
Lemma categories_sorted_by_name_witness :
  ∃ l,
    sorted name_key false (collection world_business_db "category") None
    = (Return l, None)
    ∧ l ≡ₚ collection world_business_db "category"
    ∧ ∀ (i j : nat) x y, (i < j)%nat → l !! i = Some x → l !! j = Some y →
        value_lt (name_key y) (name_key x) = Some false.
Proof.
  apply (categories_sorted_by_name (collection world_business_db "category") None).
  unfold world_business_db. rewrite collection_insert_eq.
  repeat constructor; eexists; vm_compute; reflexivity.
Defined.

(** X20: the sort [list_articles] applies (line 129).  On articles that
    each have a datetime as [published_at] or, failing that, as
    [created_at], it does not raise and gives the same articles back,
    newest first: no date comes after a later one. *)
Theorem articles_sorted_newest_first (items : list doc) (db : option Database) :
  Forall (λ x, ∃ t, date_key x = VDatetime t) items →
  ∃ l,
    sorted date_key true items db = (Return l, db)
    ∧ l ≡ₚ items
    ∧ ∀ (i j : nat) x y, (i < j)%nat → l !! i = Some x → l !! j = Some y →
        value_lt (date_key x) (date_key y) = Some false.
Proof.
  intros Hdates.
  destruct (sorted_by_date items Hdates) as (l & Hl & Hperm & Hsorted).
  exists l. split_and!.
  - unfold sorted. by rewrite Hl.
  - done.
  - intros i j x y Hij Hx Hy.
    by apply (StronglySorted_lookup _ _ Hsorted i j).
Qed.

Lemma articles_sorted_newest_first_witness :
  ∃ l,
    sorted date_key true (collection dated_db "article") None = (Return l, None)
    ∧ l ≡ₚ collection dated_db "article"
    ∧ ∀ (i j : nat) x y, (i < j)%nat → l !! i = Some x → l !! j = Some y →
        value_lt (date_key x) (date_key y) = Some false.
Proof.
  apply (articles_sorted_newest_first (collection dated_db "article") None).
  unfold dated_db. rewrite collection_insert_eq.
  repeat constructor; eexists; vm_compute; reflexivity.
Defined.




(** X22: what a card shows of a text: a [content] of at most 500 characters
    as it is, a longer one as its first 500 characters followed by ["..."];
    every other field than [_id] and [content] is the one of the article. *)
Theorem article_card_preview (str_other : value → str) (x : doc) (s : str) :
  x !! "content" = Some (VStr s) →
  article_card str_other x !! "content"
  = Some (VStr (if (length s <=? 500)%nat then s else take 500 s ++ lit "..."))
  ∧ ∀ k, k ≠ "_id" → k ≠ "content" → article_card str_other x !! k = x !! k.
Proof.
  intros Hx. split; [|by apply article_card_lookup].
  rewrite (article_card_content _ _ _ Hx). do 2 f_equal.
  destruct (Nat.leb_spec (length s) 500).
  - by apply preview_short.
  - by apply preview_long.
Qed.

Lemma article_card_preview_witness :
  article_card no_str_other (<["content" := VStr (replicate 600 97)]> ∅) !! "content"
  = Some (VStr (replicate 500 97 ++ lit "...")).
Proof.
  apply (proj1 (article_card_preview no_str_other
                  (<["content" := VStr (replicate 600 97)]> ∅) (replicate 600 97)
                  ltac:(apply lookup_insert_eq))).
Defined.

(** X23: one article without a date breaks the sort [list_articles]
    applies (line 129): on two articles or more, one of which has neither
    a true [published_at] nor a [created_at], it raises [TypeError]. *)
Theorem undated_article_breaks_sort (items : list doc) (db : option Database) :
  (2 ≤ length items)%nat →
  (∃ x, x ∈ items ∧ date_key x = VNone) →
  sorted date_key true items db = (Raise (Exception "TypeError"), db).
Proof.
  intros Hlen Hnone. unfold sorted. by rewrite py_sorted_none.
Qed.

Lemma undated_article_breaks_sort_witness :
  sorted date_key true (collection undated_db "article") None
  = (Raise (Exception "TypeError"), None).
Proof.
  apply (undated_article_breaks_sort (collection undated_db "article") None).
  - vm_compute. lia.
  - eexists. split; [apply list_elem_of_here | vm_compute; reflexivity].
Defined.

(** X24: without a database the list handlers answer with the empty list
    and never call [get_documents], the read handlers answer "not found"
    for every slug and every identifier [ObjectId] accepts, and
    [seed_sample] answers with the error 500. *)
Theorem handlers_without_database (unicode_lower : str → N → str → str)
    (str_other : value → str) (ObjectId : str → option N)
    (get_documents : string → list condition → option N → M (list doc)) :
  list_categories str_other get_documents None = (Return [], None)
  ∧ (∀ category q limit,
       list_articles str_other get_documents category q limit None = (Return [], None))
  ∧ (∀ slug,
       get_article str_other slug None
       = (Raise (HTTPException 404 "Article not found"), None))
  ∧ (∀ item_id,
       is_Some (ObjectId item_id) →
       get_article_by_id str_other ObjectId item_id None
       = (Raise (HTTPException 404 "Article not found"), None))
  ∧ (∀ now,
       seed_sample unicode_lower now None
       = (Raise (HTTPException 500 "Database not available"), None)).
Proof.
  split_and!; try done.
  intros item_id [oid Hoid]. unfold get_article_by_id. by rewrite Hoid.
Qed.

Lemma handlers_without_database_witness :
  get_article_by_id no_str_other hex_ObjectId (oid_str 0) None
  = (Raise (HTTPException 404 "Article not found"), None).
Proof.
  apply (proj1 (proj2 (proj2 (proj2
           (handlers_without_database no_unicode_lower no_str_other hex_ObjectId
              get_all_documents))))).
  vm_compute. eauto.
Defined.

(** ** The handlers on a connected database *)

(** X25: the create handlers never return a document and never store one.
    With a database they raise [NotImplementedError] at the truth test of
    the handle (lines 99 and 167), before the lookup and the insertion;
    without one they raise too.  The handle is left as it was. *)
Theorem create_handlers_never_return (unicode_lower : str → N → str → str)
    (now : N) (db : option Database) :
  (∀ p, ∃ e,
      create_category unicode_lower p db = (Raise e, db)
      ∧ (db ≠ None → e = Exception "NotImplementedError"))
  ∧ (∀ p, ∃ e,
      create_article unicode_lower now p db = (Raise e, db)
      ∧ (db ≠ None → e = Exception "NotImplementedError")).
Proof.
  split; intros p; destruct db as [d|].
  - eexists. by rewrite create_category_run.
  - eexists. by rewrite create_category_unavailable.
  - eexists. by rewrite create_article_run.
  - eexists. by rewrite create_article_unavailable.
Qed.

Lemma create_handlers_never_return_witness :
  ∃ e,
    create_category no_unicode_lower (category_request "World" None) (Some technology_db)
    = (Raise e, Some technology_db)
    ∧ (Some technology_db ≠ None → e = Exception "NotImplementedError").
Proof.
  apply (proj1 (create_handlers_never_return no_unicode_lower 0 (Some technology_db))).
Defined.

(** X26: with a database the list handlers never reach [get_documents]:
    whatever it is, and whatever the filters, they raise
    [NotImplementedError] at the truth test of the handle (lines 84 and
    127) and leave the database as it was. *)
Theorem list_handlers_never_fetch (str_other : value → str)
    (get_documents : string → list condition → option N → M (list doc))
    (d : Database) :
  list_categories str_other get_documents (Some d)
  = (Raise (Exception "NotImplementedError"), Some d)
  ∧ ∀ category q limit,
      list_articles str_other get_documents category q limit (Some d)
      = (Raise (Exception "NotImplementedError"), Some d).
Proof.
  split; [apply list_categories_run|].
  intros category q limit. apply list_articles_run.
Qed.
